(** * Message store of the whatsappClone backend

    Shallow embedding of the message model ([models/Message.js]: schema,
    statics and the pre-save hook) and of the message controller
    ([controllers/messageController.js]).  A JS string is a list of Unicode
    code points; a MongoDB collection is the list of its documents in
    natural (insertion) order; a Date is a number of milliseconds (Z);
    an ObjectId is a nat. *)

From Stdlib Require Import List ZArith Bool Lia Sorted Permutation.
Import ListNotations.
Open Scope Z_scope.

(** ** Strings *)

Definition jsstring := list Z.

(** The characters removed by [String.prototype.trim] (WhiteSpace and
    LineTerminator of ECMAScript). *)
Definition is_js_space (c : Z) : bool :=
  (c =? 9) || (c =? 10) || (c =? 11) || (c =? 12) || (c =? 13) || (c =? 32)
  || (c =? 160) || (c =? 5760) || ((8192 <=? c) && (c <=? 8202))
  || (c =? 8232) || (c =? 8233) || (c =? 8239) || (c =? 8287)
  || (c =? 12288) || (c =? 65279).

Fixpoint trim_start (s : jsstring) : jsstring :=
  match s with
  | [] => []
  | c :: s' => if is_js_space c then trim_start s' else s
  end.

Definition trim_end (s : jsstring) : jsstring := rev (trim_start (rev s)).

(** [s.trim()] *)
Definition trim (s : jsstring) : jsstring := trim_end (trim_start s).

(** [s.length]: JS counts UTF-16 code units, two for a code point above
    U+FFFF. *)
Definition utf16_length (s : jsstring) : Z :=
  fold_right (fun c n => (if 65535 <? c then 2 else 1) + n) 0 s.

(** The UTF-16 code units of a string. *)
Definition to_utf16 (s : jsstring) : list Z :=
  flat_map (fun c => if 65535 <? c
                     then [55296 + Z.shiftr (c - 65536) 10;
                           56320 + Z.land (c - 65536) 1023]
                     else [c]) s.

(** validator.js [isLength(str, {min, max})]: [str.length], less one for
    each match of [/(\uFE0F|\uFE0E)/g] and one for each match of
    [/[\uD800-\uDBFF][\uDC00-\uDFFF]/g] (matched left to right). *)
Definition is_high_surrogate (u : Z) : bool := (55296 <=? u) && (u <=? 56319).

Definition is_low_surrogate (u : Z) : bool := (56320 <=? u) && (u <=? 57343).

Fixpoint count_surrogate_pairs (us : list Z) : nat :=
  match us with
  | [] => O
  | u :: us' =>
      match us' with
      | v :: us'' =>
          if is_high_surrogate u && is_low_surrogate v
          then S (count_surrogate_pairs us'') else count_surrogate_pairs us'
      | [] => O
      end
  end.

Definition count_presentation (us : list Z) : nat :=
  List.length (List.filter (fun u => (u =? 65038) || (u =? 65039)) us).

Definition validator_length (s : jsstring) : Z :=
  let us := to_utf16 s in
  Z.of_nat (List.length us) - Z.of_nat (count_presentation us)
  - Z.of_nat (count_surrogate_pairs us).

Definition isLength (s : jsstring) (min max : Z) : bool :=
  (min <=? validator_length s) && (validator_length s <=? max).

(** [containsEmoji] (utils/helpers.js): the regex
    [/[\u{1F600}-\u{1F64F}]|[\u{1F300}-\u{1F5FF}]|[\u{1F680}-\u{1F6FF}]|
      [\u{1F1E0}-\u{1F1FF}]|[\u{2600}-\u{26FF}]|[\u{2700}-\u{27BF}]/u]
    tested anywhere in the text. *)
Definition in_range (lo hi c : Z) : bool := (lo <=? c) && (c <=? hi).

Definition is_emoji_char (c : Z) : bool :=
  in_range 128512 128591 c || in_range 127744 128511 c
  || in_range 128640 128767 c || in_range 127456 127487 c
  || in_range 9728 9983 c || in_range 9984 10175 c.

Definition containsEmoji (text : jsstring) : bool := existsb is_emoji_char text.

(** ** The Message document *)

Inductive MessageType := text | emoji.
Inductive Status := sent | delivered | read.

Definition status_eqb (a b : Status) : bool :=
  match a, b with
  | sent, sent | delivered, delivered | read, read => true
  | _, _ => false
  end.

Record Message := mkMessage {
  _id : nat;
  sender : nat;
  receiver : nat;
  content : jsstring;
  messageType : MessageType;
  status : Status;
  deliveredAt : option Z;
  readAt : option Z;
  editedAt : option Z;
  isDeleted : bool;
  deletedAt : option Z;
  replyTo : option nat;
  createdAt : Z;
  updatedAt : Z
}.

(** A collection: its documents in natural order. *)
Definition Store := list Message.

(** The error taxonomy of the controllers' responses: 400 validation,
    404, 403, 400 edit window, and 500 for a thrown exception. *)
Inductive Err := ValidationError | NotFound | Forbidden | InvalidState | Internal.

Inductive Resp (A : Type) := Ok (a : A) | Error (e : Err).
Arguments Ok {A} a.
Arguments Error {A} e.

(** ** Conditional bulk updates (statics [markAsDelivered], [markAsRead])

    [updateMany(filter, {$set: ...})] rewrites every matching document and
    returns [modifiedCount]; with [timestamps: true] Mongoose adds
    [updatedAt] to the [$set]. *)

Definition updateMany (sel : Message -> bool) (upd : Message -> Message)
  (st : Store) : Store * nat :=
  (map (fun m => if sel m then upd m else m) st,
   List.length (List.filter sel st)).

Definition set_delivered (now : Z) (m : Message) : Message :=
  {| _id := _id m; sender := sender m; receiver := receiver m;
     content := content m; messageType := messageType m;
     status := delivered; deliveredAt := Some now; readAt := readAt m;
     editedAt := editedAt m; isDeleted := isDeleted m;
     deletedAt := deletedAt m; replyTo := replyTo m;
     createdAt := createdAt m; updatedAt := now |}.

Definition set_read (now : Z) (m : Message) : Message :=
  {| _id := _id m; sender := sender m; receiver := receiver m;
     content := content m; messageType := messageType m;
     status := read; deliveredAt := deliveredAt m; readAt := Some now;
     editedAt := editedAt m; isDeleted := isDeleted m;
     deletedAt := deletedAt m; replyTo := replyTo m;
     createdAt := createdAt m; updatedAt := now |}.

(** [{sender: senderId, receiver: receiverId, status: 'sent'}] *)
Definition deliver_filter (senderId receiverId : nat) (m : Message) : bool :=
  Nat.eqb (sender m) senderId && Nat.eqb (receiver m) receiverId
  && status_eqb (status m) sent.

(** [{sender: senderId, receiver: receiverId, status: {$in: ['sent','delivered']}}] *)
Definition read_filter (senderId receiverId : nat) (m : Message) : bool :=
  Nat.eqb (sender m) senderId && Nat.eqb (receiver m) receiverId
  && (status_eqb (status m) sent || status_eqb (status m) delivered).

(** [Message.markAsDelivered(senderId, receiverId)] at time [now]. *)
Definition markAsDelivered (senderId receiverId : nat) (now : Z) (st : Store)
  : Store * nat :=
  updateMany (deliver_filter senderId receiverId) (set_delivered now) st.

(** [Message.markAsRead(senderId, receiverId)] at time [now]. *)
Definition markAsRead (senderId receiverId : nat) (now : Z) (st : Store)
  : Store * nat :=
  updateMany (read_filter senderId receiverId) (set_read now) st.

(** What a reader sees of the read state of the collection. *)
Definition status_view (st : Store) : list (nat * Status * option Z) :=
  map (fun m => (_id m, status m, readAt m)) st.

(** ** Creating a document ([Message.create], [new Message(...).save()]) *)

(** MongoDB assigns a fresh ObjectId; here: one above every id in use. *)
Definition fresh_id (st : Store) : nat :=
  S (fold_right Nat.max 0%nat (map _id st)).

(** Schema validators of [content] after its [trim: true] setter:
    [required] (the empty string fails it) and [maxlength: 1000], which
    Mongoose checks on [v.length]. *)
Definition content_valid (c : jsstring) : bool :=
  negb (Nat.eqb (List.length c) 0) && (utf16_length c <=? 1000).

Definition new_message (id snd rcv : nat) (c : jsstring) (mt : MessageType)
  (rt : option nat) (now : Z) : Message :=
  {| _id := id; sender := snd; receiver := rcv; content := c;
     messageType := mt; status := sent; deliveredAt := None; readAt := None;
     editedAt := None; isDeleted := false; deletedAt := None; replyTo := rt;
     createdAt := now; updatedAt := now |}.

(** [Message.create({sender, receiver, content, messageType, replyTo})]:
    schema defaults ([status: 'sent'], null timestamps, [isDeleted: false]),
    the trim setter, validation, then the insert. *)
Definition create (snd rcv : nat) (c : jsstring) (mt : MessageType)
  (rt : option nat) (now : Z) (st : Store) : Store * Resp Message :=
  let c' := trim c in
  if content_valid c' then
    let m := new_message (fresh_id st) snd rcv c' mt rt now in
    (st ++ [m], Ok m)
  else (st, Error ValidationError).

(** ** The user directory (external collaborator): the ids of existing users *)

Definition Users := list nat.

Definition user_exists (u : nat) (users : Users) : bool :=
  existsb (Nat.eqb u) users.

(** [Message.findById(id)] *)
Definition find_msg (mid : nat) (st : Store) : option Message :=
  find (fun m => Nat.eqb (_id m) mid) st.

(** [doc.save()] of a loaded document: an [updateOne({_id}, {$set: ...})]
    of its modified paths. *)
Definition replace_by_id (mid : nat) (f : Message -> Message) (st : Store)
  : Store :=
  map (fun m => if Nat.eqb (_id m) mid then f m else m) st.

(** ** [sendMessage] (POST /api/messages, behind [validateMessage])

    [validateMessage] trims [content] in place and checks
    [isLength({min: 1, max: 1000})]. *)
Definition validateMessage_content (c : jsstring) : option jsstring :=
  let c' := trim c in
  if isLength c' 1 1000 then Some c' else None.

(** The auto-detection of [sendMessage] and [editMessage]:
    [containsEmoji(content) && content.trim().length <= 10 ? 'emoji' : 'text']. *)
Definition detect_type (c : jsstring) : MessageType :=
  if containsEmoji c && (utf16_length (trim c) <=? 10) then emoji else text.

Definition sendMessage (users : Users) (me receiverId : nat) (c : jsstring)
  (mt : option MessageType) (rt : option nat) (now : Z) (st : Store)
  : Store * Resp Message :=
  match validateMessage_content c with
  | None => (st, Error ValidationError)
  | Some content =>
      if negb (user_exists receiverId users) then (st, Error NotFound) else
      let finalMessageType :=
        match mt with Some t => t | None => detect_type content end in
      create me receiverId (trim content) finalMessageType rt now st
  end.

(** ** [deleteMessage] (DELETE /api/messages/:messageId) *)

Definition set_deleted (now : Z) (m : Message) : Message :=
  {| _id := _id m; sender := sender m; receiver := receiver m;
     content := content m; messageType := messageType m;
     status := status m; deliveredAt := deliveredAt m; readAt := readAt m;
     editedAt := editedAt m; isDeleted := true;
     deletedAt := Some now; replyTo := replyTo m;
     createdAt := createdAt m; updatedAt := now |}.

(** [save()] re-runs the validators of the required path [content]. *)
Definition deleteMessage (me mid : nat) (now : Z) (st : Store)
  : Store * Resp unit :=
  match find_msg mid st with
  | None => (st, Error NotFound)
  | Some m =>
      if negb (Nat.eqb (sender m) me) then (st, Error Forbidden) else
      if content_valid (content m)
      then (replace_by_id mid (set_deleted now) st, Ok tt)
      else (st, Error ValidationError)
  end.

(** ** [editMessage] (PUT /api/messages/:messageId) *)

Definition day_ms : Z := 24 * 60 * 60 * 1000.

Definition set_edited (c : jsstring) (mt : MessageType) (now : Z) (m : Message)
  : Message :=
  {| _id := _id m; sender := sender m; receiver := receiver m;
     content := c; messageType := mt;
     status := status m; deliveredAt := deliveredAt m; readAt := readAt m;
     editedAt := Some now; isDeleted := isDeleted m;
     deletedAt := deletedAt m; replyTo := replyTo m;
     createdAt := createdAt m; updatedAt := now |}.

Definition editMessage (me mid : nat) (c : jsstring) (now : Z) (st : Store)
  : Store * Resp Message :=
  match find_msg mid st with
  | None => (st, Error NotFound)
  | Some m =>
      if negb (Nat.eqb (sender m) me) then (st, Error Forbidden) else
      if createdAt m <? now - day_ms then (st, Error InvalidState) else
      let c' := trim (trim c) in
      let mt := detect_type c in
      if content_valid c'
      then (replace_by_id mid (set_edited c' mt now) st,
            Ok (set_edited c' mt now m))
      else (st, Error ValidationError)
  end.

(** ** [getMessage] (GET /api/messages/:messageId)

    [sender] and [receiver] are populated; a user missing from the directory
    populates as [null] and [message.sender._id] throws (500).  The [||]
    short-circuits. *)
Definition getMessage (users : Users) (me mid : nat) (st : Store)
  : Resp Message :=
  match find_msg mid st with
  | None => Error NotFound
  | Some m =>
      if negb (user_exists (sender m) users) then Error Internal else
      if Nat.eqb (sender m) me then Ok m else
      if negb (user_exists (receiver m) users) then Error Internal else
      if Nat.eqb (receiver m) me then Ok m else Error Forbidden
  end.

(** ** [forwardMessage] (POST /api/messages/:messageId/forward) *)

Definition forwardMessage (users : Users) (me mid receiverId : nat) (now : Z)
  (st : Store) : Store * Resp Message :=
  match find_msg mid st with
  | None => (st, Error NotFound)
  | Some orig =>
      if negb (Nat.eqb (sender orig) me || Nat.eqb (receiver orig) me)
      then (st, Error Forbidden) else
      if negb (user_exists receiverId users) then (st, Error NotFound) else
      create me receiverId (content orig) (messageType orig) None now st
  end.

(** ** Queries *)

(** [.sort({createdAt: -1})], newest first: a stable sort of the documents
    in the order the server reads them ([plan] below), so that documents
    with equal [createdAt] may come out in any order. *)
Fixpoint insert_desc {A} (key : A -> Z) (x : A) (l : list A) : list A :=
  match l with
  | [] => [x]
  | y :: l' => if key y <? key x then x :: l else y :: insert_desc key x l'
  end.

Definition sort_desc {A} (key : A -> Z) (l : list A) : list A :=
  fold_left (fun acc x => insert_desc key x acc) l [].

(** [.skip(skip).limit(limit)]: a negative skip is rejected by the server;
    [limit(0)] means no limit and a negative limit is taken by absolute
    value. *)
Definition mongo_page {A} (skip limit : Z) (l : list A) : Resp (list A) :=
  if skip <? 0 then Error Internal else
  let l' := skipn (Z.to_nat skip) l in
  if limit =? 0 then Ok l' else Ok (firstn (Z.to_nat (Z.abs limit)) l').

(** The order in which the server returns documents with equal sort keys is
    unspecified and may differ from one query to the next.  A query takes
    the matched documents in an order [plan] of the server's choosing (any
    permutation: [plan_ok]) and sorts them stably, so every order consistent
    with the sort is one of its outcomes. *)
Definition plan_ok {A} (plan : list A -> list A) : Prop :=
  forall l, Permutation (plan l) l.

(** [$or: [{sender: u1, receiver: u2}, {sender: u2, receiver: u1}]] *)
Definition pair_filter (u1 u2 : nat) (m : Message) : bool :=
  (Nat.eqb (sender m) u1 && Nat.eqb (receiver m) u2)
  || (Nat.eqb (sender m) u2 && Nat.eqb (receiver m) u1).

(** The conversation query: the pair, and [isDeleted: false]. *)
Definition conv_filter (u1 u2 : nat) (m : Message) : bool :=
  pair_filter u1 u2 m && negb (isDeleted m).

(** Static [Message.getConversation(userId1, userId2, page, limit)]. *)
Definition getConversation (plan : list Message -> list Message)
  (userId1 userId2 : nat) (page limit : Z) (st : Store) : Resp (list Message) :=
  let skip := (page - 1) * limit in
  mongo_page skip limit
    (sort_desc createdAt (plan (List.filter (conv_filter userId1 userId2) st))).

(** Static [Message.getUnreadCount(userId)]:
    [countDocuments({receiver: userId, status: {$ne: 'read'}, isDeleted: false})]. *)
Definition unread_filter (userId : nat) (m : Message) : bool :=
  Nat.eqb (receiver m) userId && negb (status_eqb (status m) read)
  && negb (isDeleted m).

Definition getUnreadCount (userId : nat) (st : Store) : nat :=
  List.length (List.filter (unread_filter userId) st).

(** Static [Message.getLatestConversations(userId, limit)]: the aggregation
    pipeline [$match] / [$sort] / [$group] ([$first] and a conditional
    [$sum]) / [$lookup] + [$unwind] / [$sort] / [$limit]. *)
Record Summary := mkSummary {
  participant : nat;
  lastMessage : Message;
  unreadCount : nat
}.

Definition other_party (userId : nat) (m : Message) : nat :=
  if Nat.eqb (sender m) userId then receiver m else sender m.

Definition latest_match (userId : nat) (m : Message) : bool :=
  (Nat.eqb (sender m) userId || Nat.eqb (receiver m) userId)
  && negb (isDeleted m).

Definition unread_inc (userId : nat) (m : Message) : nat :=
  if Nat.eqb (receiver m) userId && negb (status_eqb (status m) read)
  then 1 else 0.

(** One document into the groups built so far. *)
Fixpoint group_add (userId : nat) (m : Message) (gs : list Summary)
  : list Summary :=
  match gs with
  | [] => [mkSummary (other_party userId m) m (unread_inc userId m)]
  | g :: gs' =>
      if Nat.eqb (participant g) (other_party userId m)
      then mkSummary (participant g) (lastMessage g)
             (unreadCount g + unread_inc userId m)%nat :: gs'
      else g :: group_add userId m gs'
  end.

Definition group_by_peer (userId : nat) (l : list Message) : list Summary :=
  fold_left (fun gs m => group_add userId m gs) l [].

(** [$limit] must be positive.  Both [$sort] stages leave ties to the
    server ([planM], [planS]); the order of the [$group] output, sorted
    again afterwards, is covered by [planS]. *)
Definition getLatestConversations (planM : list Message -> list Message)
  (planS : list Summary -> list Summary) (users : Users) (userId : nat)
  (limit : nat) (st : Store) : Resp (list Summary) :=
  if Nat.eqb limit 0 then Error Internal else
  let matched := List.filter (latest_match userId) st in
  let groups := group_by_peer userId (sort_desc createdAt (planM matched)) in
  let joined := List.filter (fun g => user_exists (participant g) users) groups in
  Ok (firstn limit (sort_desc (fun g => createdAt (lastMessage g)) (planS joined))).

(** ** [searchMessages] (POST /api/messages/search/:userId, behind
    [validateSearch])

    The search is written over the regular-expression engine:
    [rx_compile p] is [new RegExp(p, 'i')], [None] when the constructor
    throws a SyntaxError, otherwise its [test] function. *)
Section Search.
Variable rx_compile : jsstring -> option (jsstring -> bool).

Definition searchMessages (plan : list Message -> list Message) (users : Users)
  (me userId : nat) (query : jsstring) (page limit : Z) (st : Store)
  : Resp (list Message) :=
  let q := trim query in
  (* validateSearch: trim, then isLength({min: 1, max: 50}) *)
  if negb (isLength q 1 50) then Error ValidationError else
  if utf16_length (trim q) <? 2 then Error ValidationError else
  if negb (user_exists userId users) then Error NotFound else
  match rx_compile (trim q) with
  | None => Error Internal
  | Some test =>
      let skip := (page - 1) * limit in
      mongo_page skip limit
        (sort_desc createdAt
           (plan (List.filter (fun m => pair_filter me userId m && test (content m)
                                        && negb (isDeleted m)) st)))
  end.
End Search.

(** ** [new RegExp(p, 'i')] on the fragment of literal characters and [.]

    Without the [u] flag a pattern and its subject are sequences of UTF-16
    code units.  The [i] flag compares units through [Canonicalize]
    ([canonicalize] below): the unit's [toUpperCase] when that is a single
    unit, except that a non-ASCII unit is never mapped to an ASCII one.  Its
    Unicode case table is left abstract; on ASCII it is [ascii_upper].  [.]
    matches any unit but a line terminator.  Any other metacharacter (the
    ones [escapeRegex] escapes) leaves the fragment and compiles to
    [None]. *)

Definition ascii_upper (u : Z) : Z :=
  if (97 <=? u) && (u <=? 122) then u - 32 else u.

Section Regex.
Variable canonicalize : Z -> Z.

Definition is_line_terminator (u : Z) : bool :=
  (u =? 10) || (u =? 13) || (u =? 8232) || (u =? 8233).

(** The characters of [/[.*+?^${}()|[\]\\]/] ([escapeRegex]). *)
Definition is_rx_meta (u : Z) : bool :=
  existsb (Z.eqb u) [46; 42; 43; 63; 94; 36; 123; 125; 40; 41; 124; 91; 93; 92].

Inductive Atom := ALit (u : Z) | ADot.

Fixpoint parse_atoms (us : list Z) : option (list Atom) :=
  match us with
  | [] => Some []
  | u :: us' =>
      match parse_atoms us' with
      | None => None
      | Some p =>
          if u =? 46 then Some (ADot :: p)
          else if is_rx_meta u then None
          else Some (ALit u :: p)
      end
  end.

Definition atom_matches (a : Atom) (u : Z) : bool :=
  match a with
  | ALit c => canonicalize c =? canonicalize u
  | ADot => negb (is_line_terminator u)
  end.

Fixpoint match_here (p : list Atom) (s : list Z) : bool :=
  match p, s with
  | [], _ => true
  | a :: p', u :: s' => atom_matches a u && match_here p' s'
  | _ :: _, [] => false
  end.

(** [RegExp.prototype.test]: a match starting at some position. *)
Fixpoint match_anywhere (p : list Atom) (s : list Z) : bool :=
  match_here p s || match s with [] => false | _ :: s' => match_anywhere p s' end.

Definition rx_compile_i (p : jsstring) : option (jsstring -> bool) :=
  match parse_atoms (to_utf16 p) with
  | None => None
  | Some atoms => Some (fun s => match_anywhere atoms (to_utf16 s))
  end.

(** Literal containment of the canonicalised units. *)
Fixpoint prefixb (p s : list Z) : bool :=
  match p, s with
  | [], _ => true
  | x :: p', y :: s' => (x =? y) && prefixb p' s'
  | _ :: _, [] => false
  end.

Fixpoint includes (p s : list Z) : bool :=
  prefixb p s || match s with [] => false | _ :: s' => includes p s' end.

Definition ci_includes (q s : jsstring) : bool :=
  includes (map canonicalize (to_utf16 q)) (map canonicalize (to_utf16 s)).

End Regex.

(** ** The collection with the creation-time hook ([messageSchema.pre('save')])

    Saving a new document whose status is [sent] arms a one-second timer
    holding a reference to that in-memory document.  When it fires it tests
    the status of the in-memory document (which no bulk update touches), and
    if it is [sent] sets [status = 'delivered'] and [deliveredAt] and calls
    [save()], an [updateOne({_id}, {$set: ...})] of those paths. *)
Record World := mkWorld {
  db : Store;
  timers : list Message
}.

Inductive Op :=
| OpCreate (snd rcv : nat) (c : jsstring) (mt : MessageType) (now : Z)
| OpDeliver (snd rcv : nat) (now : Z)
| OpRead (snd rcv : nat) (now : Z)
| OpTimer (i : nat) (now : Z).

Fixpoint remove_nth {A} (i : nat) (l : list A) : list A :=
  match i, l with
  | _, [] => []
  | O, _ :: l' => l'
  | S i', x :: l' => x :: remove_nth i' l'
  end.

Definition step (w : World) (op : Op) : World :=
  match op with
  | OpCreate snd rcv c mt now =>
      match create snd rcv c mt None now (db w) with
      | (st', Ok m) =>
          mkWorld st' (if status_eqb (status m) sent then timers w ++ [m] else timers w)
      | (_, Error _) => w
      end
  | OpDeliver snd rcv now => mkWorld (fst (markAsDelivered snd rcv now (db w))) (timers w)
  | OpRead snd rcv now => mkWorld (fst (markAsRead snd rcv now (db w))) (timers w)
  | OpTimer i now =>
      match nth_error (timers w) i with
      | None => w
      | Some doc =>
          let ts := remove_nth i (timers w) in
          if status_eqb (status doc) sent
          then mkWorld (replace_by_id (_id doc) (set_delivered now) (db w)) ts
          else mkWorld (db w) ts
      end
  end.

Definition run (w : World) (ops : list Op) : World := fold_left step ops w.

Definition status_rank (s : Status) : nat :=
  match s with sent => 0 | delivered => 1 | read => 2 end.

(** ** Callers of the statics

    [getConversation] (controller, GET /api/messages/conversation/:userId):
    the page is fetched newest first, then [Message.markAsRead(userId,
    req.user._id)] runs, and the page is answered reversed.  A failing query
    throws before the update. *)
Definition getConversation_ctl (plan : list Message -> list Message)
  (users : Users) (me userId : nat) (page limit : Z) (now : Z) (st : Store)
  : Store * Resp (list Message) :=
  if negb (user_exists userId users) then (st, Error NotFound) else
  match getConversation plan me userId page limit st with
  | Error e => (st, Error e)
  | Ok messages => (fst (markAsRead userId me now st), Ok (rev messages))
  end.

(** [markAsRead] (controller, PUT /api/messages/read/:senderId): answers
    [result.modifiedCount]. *)
Definition markAsRead_ctl (users : Users) (me senderId : nat) (now : Z)
  (st : Store) : Store * Resp nat :=
  if negb (user_exists senderId users) then (st, Error NotFound) else
  let (st', n) := markAsRead senderId me now st in (st', Ok n).

(** The [joinConversation] socket event (socket/socketHandler.js): after
    joining the room it runs [Message.markAsDelivered(receiverId, userId)]. *)
Definition joinConversation (userId receiverId : nat) (now : Z) (st : Store)
  : Store :=
  fst (markAsDelivered receiverId userId now st).

(** The [sendMessage] socket event: [messageType] defaults to ['text'] (no
    auto-detection), the emptiness test is on the trimmed content but the
    length test on the raw one, then [new Message(...).save()]. *)
Definition socket_sendMessage (users : Users) (userId receiverId : nat)
  (c : jsstring) (mt : option MessageType) (rt : option nat) (now : Z)
  (st : Store) : Store * Resp Message :=
  let messageType := match mt with Some t => t | None => text end in
  if Nat.eqb (List.length (trim c)) 0 then (st, Error ValidationError) else
  if 1000 <? utf16_length c then (st, Error ValidationError) else
  if negb (user_exists receiverId users) then (st, Error NotFound) else
  create userId receiverId (trim c) messageType rt now st.

(** [getMessageStats] (GET /api/messages/stats); [today] is the local
    midnight the controller computes with [setHours(0, 0, 0, 0)]. *)
Record Stats := mkStats {
  totalSent : nat;
  totalReceived : nat;
  stats_unreadCount : nat;
  messagesToday : nat;
  totalConversations : nat;
  totalMessages : nat
}.

Definition getMessageStats (userId : nat) (today : Z) (st : Store) : Stats :=
  let count p := List.length (List.filter p st) in
  let totalSent := count (fun m => Nat.eqb (sender m) userId && negb (isDeleted m)) in
  let totalReceived := count (fun m => Nat.eqb (receiver m) userId && negb (isDeleted m)) in
  let unreadCount := count (fun m => Nat.eqb (receiver m) userId
                                     && negb (status_eqb (status m) read)
                                     && negb (isDeleted m)) in
  let messagesToday := count (fun m => Nat.eqb (sender m) userId
                                       && (today <=? createdAt m) && negb (isDeleted m)) in
  (* $match, $group by the other participant, $count *)
  let totalConversations :=
    List.length (nodup Nat.eq_dec
                   (map (other_party userId) (List.filter (latest_match userId) st))) in
  mkStats totalSent totalReceived unreadCount messagesToday totalConversations
          (totalSent + totalReceived).

(** ** Helpers (utils/helpers.js) *)

(** [escapeRegex]: [string.replace(/[.*+?^${}()|[\]\\]/g, '\\$&')]. *)
Definition escapeRegex (s : jsstring) : jsstring :=
  flat_map (fun c => if is_rx_meta c then [92; c] else [c]) s.

(** [new RegExp(p, 'i')] on the fragment above extended with the identity
    escapes [\] followed by a syntax character, which match that character
    ([\d], [\w] and the other escapes are left out of the fragment). *)
Fixpoint parse_atoms_esc (us : list Z) : option (list Atom) :=
  match us with
  | [] => Some []
  | u :: us' =>
      if u =? 92 then
        match us' with
        | v :: us'' =>
            if is_rx_meta v
            then match parse_atoms_esc us'' with
                 | Some p => Some (ALit v :: p)
                 | None => None
                 end
            else None
        | [] => None
        end
      else
        match parse_atoms_esc us' with
        | None => None
        | Some p =>
            if u =? 46 then Some (ADot :: p)
            else if is_rx_meta u then None
            else Some (ALit u :: p)
        end
  end.

Definition rx_compile_esc (canonicalize : Z -> Z) (p : jsstring)
  : option (jsstring -> bool) :=
  match parse_atoms_esc (to_utf16 p) with
  | None => None
  | Some atoms => Some (fun s => match_anywhere canonicalize atoms (to_utf16 s))
  end.

(** JS [<] on two strings: lexicographic on UTF-16 code units. *)
Fixpoint units_lt (a b : list Z) : bool :=
  match a, b with
  | _, [] => false
  | [], _ :: _ => true
  | x :: a', y :: b' => (x <? y) || ((x =? y) && units_lt a' b')
  end.

(** [generateConversationId]: [[userId1, userId2].sort().join('-')]; the
    default sort compares the strings by code units and is stable. *)
Definition generateConversationId (userId1 userId2 : jsstring) : jsstring :=
  if units_lt (to_utf16 userId2) (to_utf16 userId1)
  then userId2 ++ [45] ++ userId1
  else userId1 ++ [45] ++ userId2.

(** Cutting a key at its first ['-']. *)
Fixpoint split_dash (us : list Z) : list Z * list Z :=
  match us with
  | [] => ([], [])
  | u :: us' => if u =? 45 then ([], us')
                else let (a, b) := split_dash us' in (u :: a, b)
  end.

(** [isValidEmail]: [/^[^\s@]+@[^\s@]+\.[^\s@]+$/.test(email)] on code
    units; [\s] is the set [is_js_space]. [m_plus cls k s] matches
    [cls+] at the start of [s] and hands each possible rest to [k]. *)
Definition email_char (u : Z) : bool := negb (is_js_space u) && negb (u =? 64).

Fixpoint m_plus (cls : Z -> bool) (k : list Z -> bool) (s : list Z) : bool :=
  match s with
  | [] => false
  | u :: s' => cls u && (k s' || m_plus cls k s')
  end.

Definition m_char (c : Z) (k : list Z -> bool) (s : list Z) : bool :=
  match s with [] => false | u :: s' => (u =? c) && k s' end.

Definition m_end (s : list Z) : bool :=
  match s with [] => true | _ => false end.

Definition isValidEmail (email : jsstring) : bool :=
  m_plus email_char
    (m_char 64 (m_plus email_char (m_char 46 (m_plus email_char m_end))))
    (to_utf16 email).

(** [formatDate(date)] at time [now]: the text it returns, as
    ['now'], [`${minutes}m ago`], [`${hours}h ago`], [`${days}d ago`], or
    [messageDate.toLocaleDateString()] (locale-dependent, kept abstract). *)
Inductive DateText :=
| AgoNow
| AgoMinutes (n : Z)
| AgoHours (n : Z)
| AgoDays (n : Z)
| LocaleDate (date : Z).

Definition formatDate (now date : Z) : DateText :=
  let diff := now - date in
  if diff <? 60000 then AgoNow else
  if diff <? 3600000 then AgoMinutes (diff / 60000) else
  if diff <? 86400000 then AgoHours (diff / 3600000) else
  if diff <? 604800000 then AgoDays (diff / 86400000) else
  LocaleDate date.

(** ** JS values reaching [getPaginationMeta]

    [page] comes from [req.query] (a string when given, the number [1] by
    default) or [req.body]; it meets the numeric operators [<], [>], [-] and
    the overloaded [+].  [ToNumber] of a string is modelled for optional
    whitespace around decimal digits ([""] is [0]); any other string is read
    as [NaN] (JS also reads signs, fractions, exponents and hex).  A number
    is an integer here: fractional pages and the rounding of doubles above
    2^53 are outside the model. *)
Inductive JsVal := JNum (n : Z) | JStr (s : jsstring).

Definition is_digit (u : Z) : bool := (48 <=? u) && (u <=? 57).

Definition digits_value (s : list Z) : Z :=
  fold_left (fun acc u => acc * 10 + (u - 48)) s 0.

Definition string_to_number (s : jsstring) : option Z :=
  let t := trim s in
  if forallb is_digit t then Some (digits_value t) else None.

Definition js_to_number (v : JsVal) : option Z :=
  match v with JNum n => Some n | JStr s => string_to_number s end.

(** [String(n)] for an integer. *)
Fixpoint digits_rev (fuel : nat) (n : Z) : list Z :=
  match fuel with
  | O => []
  | S f => if n <? 10 then [48 + n] else (48 + n mod 10) :: digits_rev f (n / 10)
  end.

Definition number_to_string (n : Z) : jsstring :=
  if n <? 0 then 45 :: rev (digits_rev (S (Z.to_nat (- n))) (- n))
  else rev (digits_rev (S (Z.to_nat n)) n).

(** [v < n], [v > n]: numeric comparison, [false] against [NaN]. *)
Definition js_lt_num (v : JsVal) (n : Z) : bool :=
  match js_to_number v with Some x => x <? n | None => false end.

Definition js_gt_num (v : JsVal) (n : Z) : bool :=
  match js_to_number v with Some x => n <? x | None => false end.

(** [v + n]: string concatenation when [v] is a string. *)
Definition js_add_num (v : JsVal) (n : Z) : JsVal :=
  match v with
  | JNum x => JNum (x + n)
  | JStr s => JStr (s ++ number_to_string n)
  end.

Fixpoint take_digits (s : list Z) : list Z :=
  match s with
  | u :: s' => if is_digit u then u :: take_digits s' else []
  | [] => []
  end.

(** [parseInt(v)] ([None] for [NaN]). *)
Definition js_parseInt (v : JsVal) : option Z :=
  match v with
  | JNum n => Some n
  | JStr s =>
      let t := trim_start s in
      let '(sign, t') := match t with
                         | u :: r => if u =? 45 then (-1, r)
                                     else if u =? 43 then (1, r) else (1, t)
                         | [] => (1, t)
                         end in
      match take_digits t' with
      | [] => None
      | ds => Some (sign * digits_value ds)
      end
  end.

(** [Math.ceil(total / limit)] for a positive [limit]. *)
Definition ceil_div (total limit : Z) : Z := - ((- total) / limit).

Record PaginationMeta := mkPaginationMeta {
  currentPage : option Z;
  totalPages : Z;
  totalResults : Z;
  hasNextPage : bool;
  hasPrevPage : bool;
  nextPage : option JsVal;
  prevPage : option JsVal
}.

(** [getPaginationMeta(page, limit, total)], [limit] being used only through
    its (positive) numeric value. *)
Definition getPaginationMeta (page : JsVal) (limit total : Z) : PaginationMeta :=
  let totalPages := ceil_div total limit in
  let hasNextPage := js_lt_num page totalPages in
  let hasPrevPage := js_gt_num page 1 in
  mkPaginationMeta (js_parseInt page) totalPages total hasNextPage hasPrevPage
    (if hasNextPage then Some (js_add_num page 1) else None)
    (if hasPrevPage
     then match js_to_number page with Some n => Some (JNum (n - 1)) | None => None end
     else None).

(** The page [p] of size [l] of a query sorted on [key], newest first
    ([paginate]: [skip = (page - 1) * limit]), and pages [1..n] requested
    one after another, each a query of its own with its own [plans i]. *)
Definition page_of {A} (key : A -> Z) (plan : list A -> list A) (p l : Z)
  (xs : list A) : list A :=
  match mongo_page ((p - 1) * l) l (sort_desc key (plan xs)) with
  | Ok r => r
  | Error _ => []
  end.

Fixpoint pages_upto {A} (key : A -> Z) (plans : nat -> list A -> list A)
  (n : nat) (l : Z) (xs : list A) : list A :=
  match n with
  | O => []
  | S n' => pages_upto key plans n' l xs ++ page_of key (plans n) (Z.of_nat n) l xs
  end.

(** ** Scenarios and predicates used by the properties *)

Definition empty_world : World := mkWorld [] [].

(** A message from user 1 to user 2, read by user 2 half a second later,
    then the creation-time timer firing at one second. *)
Definition read_before_timer : list Op :=
  [OpCreate 1 2 [104; 105] text 0; OpRead 1 2 500; OpTimer 0 1000].

(** The operations other than the timer. *)
Definition not_timer (op : Op) : bool :=
  match op with OpTimer _ _ => false | _ => true end.

Definition advanced (m m' : Message) : Prop :=
  _id m = _id m' /\ (status_rank (status m) <= status_rank (status m'))%nat.

(** ["Hi <U+1F600>"] *)
Definition hi_smiley : jsstring := [72; 105; 32; 128512].

Definition deleted_hi : Message :=
  set_deleted 5 (new_message 1 1 2 [104; 105] text None 0).

(** What the schema guarantees of every stored document's content: the
    trim setter ran on it and it passed validation. *)
Definition stored_ok (m : Message) : Prop :=
  trim (content m) = content m /\ content_valid (content m) = true.



Definition newer_or_same {A} (key : A -> Z) (a b : A) : Prop := key b <= key a.

(** Users 1 and 2 exchange two messages in the same millisecond. *)
Definition tie_pair : Store :=
  [new_message 1 1 2 [104] text None 0; new_message 2 2 1 [104] text None 0].

(** Three users; user 1 talks with users 2 and 3. *)
Definition three_way : Store :=
  [new_message 1 1 2 [104] text None 1; new_message 2 2 1 [104] text None 3;
   new_message 3 3 1 [104] text None 2].

(** * Properties *)

(** ** Sanity checks on small inputs *)

Example trim_example : trim [32; 104; 105; 10] = [104; 105].
Proof. reflexivity. Qed.

Example utf16_length_emoji : utf16_length [128512] = 2.
Proof. reflexivity. Qed.

Example detect_smiley : detect_type [128512] = emoji.
Proof. reflexivity. Qed.

(** ** Status transitions *)

Lemma read_filter_set_read snd rcv t m :
  read_filter snd rcv (set_read t m) = false.
Proof.
  unfold read_filter; simpl; rewrite andb_false_r; reflexivity.
Qed.

Lemma markAsRead_noop_after_read snd rcv t1 t2 st :
  markAsRead snd rcv t2 (fst (markAsRead snd rcv t1 st))
  = (fst (markAsRead snd rcv t1 st), 0%nat).
Proof.
  unfold markAsRead, updateMany; simpl; f_equal.
  - induction st as [|m st IH]; simpl; [reflexivity|].
    destruct (read_filter snd rcv m) eqn:E.
    + rewrite read_filter_set_read; f_equal; exact IH.
    + rewrite E; f_equal; exact IH.
  - induction st as [|m st IH]; simpl; [reflexivity|].
    destruct (read_filter snd rcv m) eqn:E.
    + rewrite read_filter_set_read; exact IH.
    + rewrite E; exact IH.
Qed.

Lemma update_advanced sel upd st :
  (forall m, sel m = true -> advanced m (upd m)) ->
  Forall2 advanced st (fst (updateMany sel upd st)).
Proof.
  intros H; induction st as [|m st IH]; simpl; constructor; auto.
  destruct (sel m) eqn:E; [now apply H|split; auto].
Qed.

(** Without the timer, every operation keeps each existing document at or
    past its status (creation only appends). *)
Lemma api_step_monotone w op :
  not_timer op = true ->
  Forall2 advanced (db w) (firstn (List.length (db w)) (db (step w op))).
Proof.
  assert (Hrefl : forall st, Forall2 advanced st st).
  { induction st; constructor; [split; auto | auto]. }
  assert (Hlen : forall A (l l' : list A), List.length l = List.length l' ->
                 firstn (List.length l) l' = l').
  { intros A l l' E; rewrite E; apply firstn_all. }
  destruct op as [snd rcv c mt now|snd rcv now|snd rcv now|i now]; simpl;
    intros Hop; try discriminate.
  - unfold create; destruct (content_valid (trim c)); simpl.
    + rewrite firstn_app, Nat.sub_diag, firstn_all; simpl; rewrite app_nil_r; auto.
    + rewrite firstn_all; auto.
  - rewrite Hlen by (unfold markAsDelivered, updateMany; simpl; now rewrite length_map).
    apply update_advanced; intros m Hm; split; [reflexivity|].
    unfold deliver_filter in Hm; apply andb_prop in Hm as [_ Hm].
    destruct (status m); simpl in *; try discriminate; lia.
  - rewrite Hlen by (unfold markAsRead, updateMany; simpl; now rewrite length_map).
    apply update_advanced; intros m Hm; split; [reflexivity|].
    destruct (status m); simpl; lia.
Qed.

(** C1 (status never regresses). The creation-time delivery timer re-reads
    the status of its own in-memory copy, not of the stored document: a
    message created at t = 0 and marked read by its receiver at t = 500 is
    set back from [read] to [delivered] when the timer fires at t = 1000. *)
Theorem delivery_timer_regresses_read :
  map status (db (run empty_world (firstn 2 read_before_timer))) = [read] /\
  map status (db (run empty_world read_before_timer)) = [delivered].
Proof. split; vm_compute; reflexivity. Qed.

(** C2 (markAsDelivered then markAsRead is markAsRead; markAsRead is
    idempotent). For every pair and collection, [markAsDelivered] followed
    by [markAsRead] leaves every document with the status and [readAt] that
    [markAsRead] alone gives; and a second [markAsRead] modifies no
    document and leaves the collection, [readAt] included, as the first
    left it. *)
Theorem markAsRead_absorbs_delivery_and_is_idempotent snd rcv t1 t2 st :
  status_view (fst (markAsRead snd rcv t2 (fst (markAsDelivered snd rcv t1 st))))
  = status_view (fst (markAsRead snd rcv t2 st)) /\
  markAsRead snd rcv t2 (fst (markAsRead snd rcv t1 st))
  = (fst (markAsRead snd rcv t1 st), 0%nat).
Proof.
  split; [|apply markAsRead_noop_after_read].
  unfold markAsRead, markAsDelivered, updateMany, status_view; simpl.
  induction st as [|m st IH]; simpl; [reflexivity|].
  rewrite IH; f_equal.
  unfold deliver_filter, read_filter.
  destruct (Nat.eqb (sender m) snd) eqn:E1, (Nat.eqb (receiver m) rcv) eqn:E2,
    (status m) eqn:E3; simpl; rewrite ?E1, ?E2, ?E3; simpl; rewrite ?E3; reflexivity.
Qed.

(** ** Trimming *)

Lemma trim_start_suffix s : exists p, s = p ++ trim_start s.
Proof.
  induction s as [|c s IH]; simpl; [exists []; reflexivity|].
  destruct (is_js_space c).
  - destruct IH as [p Hp]; exists (c :: p); simpl; f_equal; exact Hp.
  - exists []; reflexivity.
Qed.

Lemma trim_start_idem s : trim_start (trim_start s) = trim_start s.
Proof.
  induction s as [|c s IH]; simpl; [reflexivity|].
  destruct (is_js_space c) eqn:E; [exact IH|simpl; rewrite E; reflexivity].
Qed.

Lemma trim_end_prefix s : exists r, s = trim_end s ++ r.
Proof.
  destruct (trim_start_suffix (rev s)) as [p Hp].
  exists (rev p); unfold trim_end.
  rewrite <- rev_app_distr, <- Hp, rev_involutive; reflexivity.
Qed.

Lemma trim_end_idem s : trim_end (trim_end s) = trim_end s.
Proof.
  unfold trim_end; rewrite rev_involutive, trim_start_idem; reflexivity.
Qed.

Lemma trim_start_head s :
  trim_start s = [] \/ exists c r, trim_start s = c :: r /\ is_js_space c = false.
Proof.
  induction s as [|c s IH]; simpl; [left; reflexivity|].
  destruct (is_js_space c) eqn:E; [exact IH|right; exists c, s; auto].
Qed.

Lemma trim_idem s : trim (trim s) = trim s.
Proof.
  unfold trim.
  destruct (trim_end_prefix (trim_start s)) as [r Hr].
  destruct (trim_end (trim_start s)) as [|c t] eqn:Et.
  - reflexivity.
  - destruct (trim_start_head s) as [H0|[c' [r' [H1 H2]]]].
    + rewrite H0 in Hr; discriminate.
    + rewrite H1 in Hr; simpl in Hr; injection Hr as -> _.
      simpl; rewrite H2, <- Et, trim_end_idem; reflexivity.
Qed.

(** ** C3: type auto-detection *)

(** C3 (counterexample). ["Hi <U+1F600>"] mixes text and an emoji and is 5 code
    units long; sent without [messageType] it is stored as [emoji]. *)
Lemma mixed_text_classified_emoji :
  forallb is_emoji_char (trim hi_smiley) = false /\
  exists st' m, sendMessage [1%nat; 2%nat] 1 2 hi_smiley None None 0 [] = (st', Ok m)
                /\ messageType m = emoji.
Proof.
  split; [reflexivity|].
  eexists; eexists; split; [vm_compute; reflexivity|reflexivity].
Qed.

(** C3 (amended). A message created by [sendMessage] without a
    [messageType] is stored as [emoji] exactly when its trimmed content
    contains at least one character of the emoji ranges of [containsEmoji]
    and is at most 10 UTF-16 code units long; otherwise as [text]. *)
Theorem sendMessage_detects_type users me rid c rt now st st' m :
  sendMessage users me rid c None rt now st = (st', Ok m) ->
  (messageType m = emoji <->
   containsEmoji (trim c) = true /\ utf16_length (trim c) <= 10).
Proof.
  unfold sendMessage, validateMessage_content.
  destruct (isLength _ _ _); [|discriminate].
  destruct (negb (user_exists rid users)); [discriminate|].
  unfold create; destruct (content_valid _); [|discriminate].
  intros H; injection H as _ <-; simpl.
  unfold detect_type; rewrite trim_idem.
  destruct (containsEmoji (trim c)), (utf16_length (trim c) <=? 10) eqn:E;
    simpl; split; intros; try discriminate; try reflexivity;
    repeat match goal with H : _ /\ _ |- _ => destruct H end;
    try discriminate; try lia; apply Z.leb_le in E || apply Z.leb_gt in E; lia.
Qed.

Lemma sendMessage_detects_type_witness :
  sendMessage [1%nat; 2%nat] 1 2 hi_smiley None None 0 []
  = ([new_message 1 1 2 hi_smiley emoji None 0],
     Ok (new_message 1 1 2 hi_smiley emoji None 0)) /\
  (messageType (new_message 1 1 2 hi_smiley emoji None 0) = emoji <->
   containsEmoji (trim hi_smiley) = true /\ utf16_length (trim hi_smiley) <= 10).
Proof.
  split; [vm_compute; reflexivity|].
  apply (sendMessage_detects_type [1%nat; 2%nat] 1 2 hi_smiley None 0 []
           [new_message 1 1 2 hi_smiley emoji None 0]).
  vm_compute; reflexivity.
Defined.

(** ** Read paths *)

Lemma In_insert_desc {A} (k : A -> Z) x y l :
  In x (insert_desc k y l) <-> y = x \/ In x l.
Proof.
  induction l as [|z l IH]; simpl; [tauto|].
  destruct (k z <? k y); simpl; rewrite ?IH; tauto.
Qed.

Lemma In_sort_desc {A} (k : A -> Z) x l : In x (sort_desc k l) <-> In x l.
Proof.
  unfold sort_desc.
  enough (H : forall acc, In x (fold_left (fun acc y => insert_desc k y acc) l acc)
                          <-> In x l \/ In x acc) by (rewrite H; simpl; tauto).
  induction l as [|y l IH]; intros acc; simpl; [tauto|].
  rewrite IH, In_insert_desc; tauto.
Qed.

Lemma In_firstn_l {A} n (l : list A) x : In x (firstn n l) -> In x l.
Proof. intros Hx; rewrite <- (firstn_skipn n l); apply in_or_app; auto. Qed.

Lemma In_skipn_l {A} n (l : list A) x : In x (skipn n l) -> In x l.
Proof. intros Hx; rewrite <- (firstn_skipn n l); apply in_or_app; auto. Qed.

Lemma mongo_page_In {A} skip limit (l res : list A) x :
  mongo_page skip limit l = Ok res -> In x res -> In x l.
Proof.
  unfold mongo_page.
  destruct (skip <? 0); [discriminate|].
  destruct (limit =? 0); intros H; injection H as <-; intros Hx.
  - eapply In_skipn_l; exact Hx.
  - eapply In_skipn_l, In_firstn_l; exact Hx.
Qed.

(** ** The newest-first order, pages and the order of ties *)

Lemma insert_desc_sorted {A} (key : A -> Z) x l :
  Sorted (newer_or_same key) l -> Sorted (newer_or_same key) (insert_desc key x l).
Proof.
  unfold newer_or_same.
  induction l as [|y l IH]; simpl; intros H; [repeat constructor|].
  destruct (key y <? key x) eqn:E.
  - apply Z.ltb_lt in E; constructor; [exact H|constructor; lia].
  - apply Z.ltb_ge in E; inversion H as [|? ? Hl Hhd]; subst.
    constructor; [apply IH; exact Hl|].
    destruct l as [|z l]; simpl; [constructor; lia|].
    destruct (key z <? key x); constructor; [lia|].
    inversion Hhd; assumption.
Qed.

(** [sort_desc] returns its input newest first. *)
Lemma sort_desc_sorted {A} (key : A -> Z) l :
  Sorted (newer_or_same key) (sort_desc key l).
Proof.
  unfold sort_desc.
  enough (H : forall acc, Sorted (newer_or_same key) acc ->
     Sorted (newer_or_same key) (fold_left (fun acc x => insert_desc key x acc) l acc))
    by (apply H; constructor).
  induction l as [|y l IH]; intros acc Hacc; simpl; [exact Hacc|].
  apply IH, insert_desc_sorted, Hacc.
Qed.

Lemma newer_or_same_trans {A} (key : A -> Z) : RelationClasses.Transitive (newer_or_same key).
Proof. unfold newer_or_same; intros a b c; lia. Qed.

Lemma StronglySorted_skipn {A} (R : A -> A -> Prop) n l :
  StronglySorted R l -> StronglySorted R (skipn n l).
Proof.
  revert l; induction n as [|n IH]; intros l H; [exact H|].
  destruct l as [|x l]; [exact H|]; simpl; apply IH.
  apply StronglySorted_inv in H; tauto.
Qed.

Lemma StronglySorted_firstn {A} (R : A -> A -> Prop) n l :
  StronglySorted R l -> StronglySorted R (firstn n l).
Proof.
  revert l; induction n as [|n IH]; intros l H; [constructor|].
  destruct l as [|x l]; [constructor|]; simpl.
  apply StronglySorted_inv in H as [Hs Hf]; constructor; [auto|].
  apply Forall_forall; intros y Hy; rewrite Forall_forall in Hf;
    apply Hf; eapply In_firstn_l; exact Hy.
Qed.

Lemma StronglySorted_snoc {A} (R : A -> A -> Prop) l x :
  StronglySorted R l -> (forall y, In y l -> R y x) -> StronglySorted R (l ++ [x]).
Proof.
  induction l as [|a l IH]; simpl; intros Hs Hx.
  - repeat constructor.
  - apply StronglySorted_inv in Hs as [Hs Hf]; constructor; [auto|].
    apply Forall_app; split; [exact Hf|constructor; auto].
Qed.

Lemma StronglySorted_rev {A} (R : A -> A -> Prop) l :
  StronglySorted R l -> StronglySorted (fun a b => R b a) (rev l).
Proof.
  induction l as [|a l IH]; simpl; intros Hs; [constructor|].
  apply StronglySorted_inv in Hs as [Hs Hf]; apply StronglySorted_snoc; [auto|].
  intros y Hy; apply in_rev in Hy; rewrite Forall_forall in Hf; auto.
Qed.

Lemma mongo_page_sorted {A} (R : A -> A -> Prop) skip limit (l res : list A) :
  StronglySorted R l -> mongo_page skip limit l = Ok res -> StronglySorted R res.
Proof.
  unfold mongo_page; intros Hs.
  destruct (skip <? 0); [discriminate|].
  destruct (limit =? 0); intros H; injection H as <-;
    [|apply StronglySorted_firstn]; apply StronglySorted_skipn; exact Hs.
Qed.

Lemma insert_desc_perm {A} (key : A -> Z) x l :
  Permutation (insert_desc key x l) (x :: l).
Proof.
  induction l as [|y l IH]; simpl; [reflexivity|].
  destruct (key y <? key x); [reflexivity|].
  eapply perm_trans; [apply perm_skip, IH|apply perm_swap].
Qed.



Lemma sort_desc_perm {A} (key : A -> Z) l : Permutation (sort_desc key l) l.
Proof.
  unfold sort_desc.
  enough (H : forall acc, Permutation (fold_left (fun acc x => insert_desc key x acc) l acc)
                                      (l ++ acc))
    by (rewrite H, app_nil_r; reflexivity).
  induction l as [|x l IH]; intros acc; simpl; [reflexivity|].
  rewrite IH, insert_desc_perm; symmetry; apply Permutation_middle.
Qed.

Lemma plan_ok_id {A} : plan_ok (fun l : list A => l).
Proof. intros l; reflexivity. Qed.

Lemma plan_ok_rev {A} : plan_ok (@rev A).
Proof. intros l; symmetry; apply Permutation_rev. Qed.

Lemma plan_sort_perm {A} (key : A -> Z) plan l :
  plan_ok plan -> Permutation (sort_desc key (plan l)) l.
Proof. intros Hp; rewrite sort_desc_perm; apply Hp. Qed.

Lemma plan_sort_In {A} (key : A -> Z) plan l x :
  plan_ok plan -> In x (sort_desc key (plan l)) <-> In x l.
Proof.
  intros Hp; split; intros H.
  - eapply Permutation_in; [apply (plan_sort_perm key plan l Hp)|exact H].
  - eapply Permutation_in; [symmetry; apply (plan_sort_perm key plan l Hp)|exact H].
Qed.

Lemma sort_desc_strongly_sorted {A} (key : A -> Z) l :
  StronglySorted (newer_or_same key) (sort_desc key l).
Proof.
  apply Sorted_StronglySorted; [apply newer_or_same_trans|apply sort_desc_sorted].
Qed.

Lemma StronglySorted_map_key {A} (key : A -> Z) l :
  StronglySorted (newer_or_same key) l -> StronglySorted Z.ge (map key l).
Proof.
  induction l as [|x l IH]; simpl; intros H; [constructor|].
  apply StronglySorted_inv in H as [H Hf]; constructor; [auto|].
  apply Forall_map; eapply Forall_impl; [|exact Hf].
  unfold newer_or_same; intros y Hy; lia.
Qed.

(** Two lists of numbers sorted in decreasing order that are permutations
    of each other are equal. *)
Lemma sorted_perm_Z (l1 l2 : list Z) :
  StronglySorted Z.ge l1 -> StronglySorted Z.ge l2 -> Permutation l1 l2 -> l1 = l2.
Proof.
  revert l2; induction l1 as [|a l1 IH]; intros l2 H1 H2 Hp.
  - symmetry; apply Permutation_nil, Hp.
  - destruct l2 as [|b l2]; [apply Permutation_length in Hp; discriminate|].
    apply StronglySorted_inv in H1 as [H1 F1]; apply StronglySorted_inv in H2 as [H2 F2].
    rewrite Forall_forall in F1, F2.
    assert (Hab : a = b).
    { assert (Ha : In a (b :: l2)) by (eapply Permutation_in; [exact Hp|left; reflexivity]).
      assert (Hb : In b (a :: l1))
        by (eapply Permutation_in; [symmetry; exact Hp|left; reflexivity]).
      destruct Ha as [Ha|Ha]; [congruence|].
      destruct Hb as [Hb|Hb]; [congruence|].
      specialize (F1 b Hb); specialize (F2 a Ha); lia. }
    subst b; f_equal; apply IH; auto.
    eapply Permutation_cons_inv; exact Hp.
Qed.

(** Two lists sorted newest first that are permutations of each other carry
    the same sequence of keys; they are equal when no key repeats. *)
Lemma sorted_perm_keys {A} (key : A -> Z) (l1 l2 : list A) :
  StronglySorted (newer_or_same key) l1 -> StronglySorted (newer_or_same key) l2 ->
  Permutation l1 l2 -> map key l1 = map key l2.
Proof.
  intros H1 H2 Hp; apply sorted_perm_Z;
    [apply StronglySorted_map_key, H1|apply StronglySorted_map_key, H2
    |apply Permutation_map, Hp].
Qed.

Lemma sorted_perm_nodup {A} (key : A -> Z) (l1 l2 : list A) :
  StronglySorted (newer_or_same key) l1 -> StronglySorted (newer_or_same key) l2 ->
  Permutation l1 l2 -> NoDup (map key l1) -> l1 = l2.
Proof.
  revert l2; induction l1 as [|a l1 IH]; intros l2 H1 H2 Hp Hnd.
  - symmetry; apply Permutation_nil, Hp.
  - destruct l2 as [|b l2]; [apply Permutation_length in Hp; discriminate|].
    pose proof (sorted_perm_keys key _ _ H1 H2 Hp) as Hk; simpl in Hk.
    injection Hk as Hk _.
    inversion Hnd as [|? ? Hn Hnd']; subst.
    destruct (Permutation_in b (Permutation_sym Hp) (or_introl eq_refl)) as [Hb|Hb].
    + subst b; f_equal.
      apply StronglySorted_inv in H1 as [H1 _]; apply StronglySorted_inv in H2 as [H2 _].
      apply IH; auto; eapply Permutation_cons_inv; exact Hp.
    + exfalso; apply Hn; rewrite Hk; apply in_map; exact Hb.
Qed.

Lemma mongo_page_keys {A} (key : A -> Z) skip limit (l1 l2 : list A) :
  map key l1 = map key l2 ->
  match mongo_page skip limit l1, mongo_page skip limit l2 with
  | Ok r1, Ok r2 => map key r1 = map key r2
  | Error e1, Error e2 => e1 = e2
  | _, _ => False
  end.
Proof.
  intros Hk; unfold mongo_page.
  destruct (skip <? 0); [reflexivity|].
  destruct (limit =? 0).
  - rewrite <- !skipn_map, Hk; reflexivity.
  - rewrite <- !firstn_map, <- !skipn_map, Hk; reflexivity.
Qed.



(** ** C4: soft-deleted messages *)




(** ** C5: the edit window *)

(** C5. Editing, by its sender, a message created more than 24 hours ago
    fails with [InvalidState] (400) and leaves the collection, hence the
    message's content, type and [editedAt], as it was. *)
Theorem edit_after_window_rejected me mid c now st m :
  find_msg mid st = Some m ->
  sender m = me ->
  now - createdAt m > day_ms ->
  editMessage me mid c now st = (st, Error InvalidState).
Proof.
  intros Hf Hs Hold; unfold editMessage; rewrite Hf, Hs, Nat.eqb_refl; simpl.
  replace (createdAt m <? now - day_ms) with true by (symmetry; apply Z.ltb_lt; lia).
  reflexivity.
Qed.

Lemma edit_after_window_rejected_witness :
  editMessage 1 1 [121; 111] (2 * day_ms) [new_message 1 1 2 [104; 105] text None 0]
  = ([new_message 1 1 2 [104; 105] text None 0], Error InvalidState).
Proof.
  apply (edit_after_window_rejected 1 1 [121; 111] (2 * day_ms)
           [new_message 1 1 2 [104; 105] text None 0]
           (new_message 1 1 2 [104; 105] text None 0));
    [reflexivity|reflexivity|vm_compute; reflexivity].
Defined.

(** ** C6: deleting twice *)

Lemma find_replace_by_id mid f st m :
  (forall x, _id (f x) = _id x) ->
  find_msg mid st = Some m -> find_msg mid (replace_by_id mid f st) = Some (f m).
Proof.
  intros Hid; unfold find_msg, replace_by_id.
  induction st as [|x st IH]; simpl; [discriminate|].
  destruct (Nat.eqb (_id x) mid) eqn:E.
  - intros H; injection H as <-; simpl; rewrite Hid, E; reflexivity.
  - simpl; rewrite E; exact IH.
Qed.

(** C6 (counterexample). Deleting at t = 10 a message already deleted at
    t = 5 succeeds and moves [deletedAt] from 5 to 10. *)
Lemma second_delete_moves_deletedAt :
  deletedAt deleted_hi = Some 5 /\
  exists st', deleteMessage 1 1 10 [deleted_hi] = (st', Ok tt) /\
              option_map deletedAt (find_msg 1 st') = Some (Some 10).
Proof.
  split; [reflexivity|].
  eexists; split; [vm_compute; reflexivity|reflexivity].
Qed.

(** C6 (amended). Deleting, by its sender, a message that is already
    deleted succeeds again: [isDeleted] stays [true], [deletedAt] and
    [updatedAt] are re-stamped with the time of the new call, and every
    other field is unchanged. *)
Theorem delete_again_restamps me mid now st m :
  find_msg mid st = Some m ->
  sender m = me ->
  isDeleted m = true ->
  content_valid (content m) = true ->
  exists st', deleteMessage me mid now st = (st', Ok tt) /\
    find_msg mid st' = Some (set_deleted now m) /\
    isDeleted (set_deleted now m) = true /\
    deletedAt (set_deleted now m) = Some now /\
    set_deleted now m = {| _id := _id m; sender := sender m; receiver := receiver m;
       content := content m; messageType := messageType m; status := status m;
       deliveredAt := deliveredAt m; readAt := readAt m; editedAt := editedAt m;
       isDeleted := isDeleted m; deletedAt := Some now; replyTo := replyTo m;
       createdAt := createdAt m; updatedAt := now |}.
Proof.
  intros Hf Hs Hd Hv.
  exists (replace_by_id mid (set_deleted now) st).
  unfold deleteMessage; rewrite Hf.
  replace (Nat.eqb (sender m) me) with true by (symmetry; apply Nat.eqb_eq; exact Hs).
  rewrite Hv; simpl.
  split; [reflexivity|].
  split; [apply find_replace_by_id; [reflexivity|exact Hf]|].
  split; [reflexivity|split; [reflexivity|]].
  unfold set_deleted; rewrite Hd; reflexivity.
Qed.

Lemma delete_again_restamps_witness :
  exists st', deleteMessage 1 1 10 [deleted_hi] = (st', Ok tt) /\
    find_msg 1 st' = Some (set_deleted 10 deleted_hi) /\
    isDeleted (set_deleted 10 deleted_hi) = true /\
    deletedAt (set_deleted 10 deleted_hi) = Some 10 /\
    set_deleted 10 deleted_hi = {| _id := 1; sender := 1; receiver := 2;
       content := [104; 105]; messageType := text; status := sent;
       deliveredAt := None; readAt := None; editedAt := None;
       isDeleted := true; deletedAt := Some 10; replyTo := None;
       createdAt := 0; updatedAt := 10 |}.
Proof.
  apply (delete_again_restamps 1 1 10 [deleted_hi] deleted_hi);
    reflexivity.
Defined.

(** ** C7: symmetry of the conversation query *)

(** C7 (counterexample). Users 1 and 2 exchange two messages in the same
    millisecond.  The order of messages with equal [createdAt] is left to
    the server; when it answers them in stored order for
    [getConversation(1, 2)] and in reverse for [getConversation(2, 1)], the
    two calls return the same messages in different orders. *)
Lemma conversation_tie_order_differs :
  plan_ok (fun l : list Message => l) /\ plan_ok (@rev Message) /\
  getConversation (fun l => l) 1 2 1 20 tie_pair
  = Ok [new_message 1 1 2 [104] text None 0; new_message 2 2 1 [104] text None 0] /\
  getConversation (@rev Message) 2 1 1 20 tie_pair
  = Ok [new_message 2 2 1 [104] text None 0; new_message 1 1 2 [104] text None 0].
Proof.
  split; [apply plan_ok_id|split; [apply plan_ok_rev|split]]; vm_compute; reflexivity.
Qed.

Lemma conv_filter_comm a b st :
  List.filter (conv_filter b a) st = List.filter (conv_filter a b) st.
Proof.
  apply filter_ext; intros m; unfold conv_filter, pair_filter.
  f_equal; apply orb_comm.
Qed.

(** C7 (amended). [getConversation(A, B, page, limit)] and
    [getConversation(B, A, page, limit)], whatever order the server gives
    each of them to messages with equal [createdAt], fail together or
    return pages with the same sequence of [createdAt] values; when no two
    messages of the pair share a [createdAt] they return the same messages
    in the same order. *)
Theorem getConversation_symmetric p1 p2 a b page limit st :
  plan_ok p1 -> plan_ok p2 ->
  match getConversation p1 a b page limit st, getConversation p2 b a page limit st with
  | Ok r1, Ok r2 =>
      map createdAt r1 = map createdAt r2 /\
      (NoDup (map createdAt (List.filter (conv_filter a b) st)) -> r1 = r2)
  | Error e1, Error e2 => e1 = e2
  | _, _ => False
  end.
Proof.
  intros H1 H2; unfold getConversation.
  rewrite (conv_filter_comm a b st).
  set (L := List.filter (conv_filter a b) st).
  set (s1 := sort_desc createdAt (p1 L)); set (s2 := sort_desc createdAt (p2 L)).
  assert (Hp : Permutation s1 s2).
  { unfold s1, s2; rewrite (plan_sort_perm createdAt p1 L H1).
    symmetry; apply plan_sort_perm, H2. }
  assert (Hk : map createdAt s1 = map createdAt s2)
    by (apply sorted_perm_keys; [apply sort_desc_strongly_sorted
                                |apply sort_desc_strongly_sorted|exact Hp]).
  pose proof (mongo_page_keys createdAt ((page - 1) * limit) limit s1 s2 Hk) as Hm.
  destruct (mongo_page _ _ s1) as [r1|e1] eqn:E1, (mongo_page _ _ s2) as [r2|e2] eqn:E2;
    try exact Hm.
  split; [exact Hm|].
  intros Hnd.
  assert (Hs : s1 = s2).
  { apply (sorted_perm_nodup createdAt); [apply sort_desc_strongly_sorted
                                          |apply sort_desc_strongly_sorted|exact Hp|].
    apply (Permutation_NoDup (Permutation_map createdAt (Permutation_sym
             (plan_sort_perm createdAt p1 L H1)))), Hnd. }
  rewrite Hs in E1; congruence.
Qed.

Lemma getConversation_symmetric_witness :
  (plan_ok (fun l : list Message => l) /\ plan_ok (@rev Message)) /\
  match getConversation (fun l => l) 1 2 1 20 tie_pair,
        getConversation (@rev Message) 2 1 1 20 tie_pair with
  | Ok r1, Ok r2 =>
      map createdAt r1 = map createdAt r2 /\
      (NoDup (map createdAt (List.filter (conv_filter 1 2) tie_pair)) -> r1 = r2)
  | Error e1, Error e2 => e1 = e2
  | _, _ => False
  end.
Proof.
  split; [split; [apply plan_ok_id|apply plan_ok_rev]|].
  apply (getConversation_symmetric (fun l => l) (@rev Message) 1 2 1 20 tie_pair);
    [apply plan_ok_id|apply plan_ok_rev].
Defined.

(** ** C8: search *)


Lemma match_here_literal canonicalize p s :
  match_here canonicalize (map ALit p) s
  = prefixb (map canonicalize p) (map canonicalize s).
Proof.
  revert s; induction p as [|c p IH]; intros [|u s]; simpl; try reflexivity.
  rewrite IH; reflexivity.
Qed.

Lemma match_anywhere_literal canonicalize p s :
  match_anywhere canonicalize (map ALit p) s
  = includes (map canonicalize p) (map canonicalize s).
Proof.
  induction s as [|u s IH]; simpl; rewrite match_here_literal; [reflexivity|].
  rewrite IH; reflexivity.
Qed.



(** The query is handed to [new RegExp] unescaped ([escapeRegex], which the
    user search applies, is not called here): the query ["a."] finds the
    message ["ab"], which does not contain ["a."]. *)
Lemma search_dot_is_wildcard canonicalize plan :
  (forall u, 0 <= u < 128 -> canonicalize u = ascii_upper u) -> plan_ok plan ->
  ci_includes canonicalize [97; 46] [97; 98] = false /\
  searchMessages (rx_compile_i canonicalize) plan [1%nat; 2%nat] 1 2 [97; 46] 1 20
    [new_message 1 1 2 [97; 98] text None 0]
  = Ok [new_message 1 1 2 [97; 98] text None 0].
Proof.
  intros Hc Hp; split.
  - unfold ci_includes; simpl; rewrite !Hc by lia; reflexivity.
  - unfold searchMessages; simpl.
    rewrite Z.eqb_refl; simpl.
    rewrite (Permutation_length_1_inv (Permutation_sym (Hp _))).
    reflexivity.
Qed.



(** ** Forwarding *)

Lemma create_stored_ok snd rcv c mt rt now st st' m :
  create snd rcv c mt rt now st = (st', Ok m) -> stored_ok m.
Proof.
  unfold create; destruct (content_valid (trim c)) eqn:E; [|discriminate].
  intros H; injection H as _ <-; split; simpl; [apply trim_idem|exact E].
Qed.

Lemma fresh_id_gt st m : In m st -> (_id m < fresh_id st)%nat.
Proof.
  unfold fresh_id; induction st as [|x st IH]; simpl; [tauto|].
  intros [->|H]; [lia|specialize (IH H); lia].
Qed.

Lemma forward_creates users me mid rid now st m :
  find_msg mid st = Some m ->
  (sender m = me \/ receiver m = me) ->
  user_exists rid users = true ->
  stored_ok m ->
  forwardMessage users me mid rid now st
  = (st ++ [new_message (fresh_id st) me rid (content m) (messageType m) None now],
     Ok (new_message (fresh_id st) me rid (content m) (messageType m) None now)).
Proof.
  intros Hf Hacc Hr [Ht Hv]; unfold forwardMessage; rewrite Hf.
  replace (Nat.eqb (sender m) me || Nat.eqb (receiver m) me) with true
    by (symmetry; apply orb_true_iff;
        destruct Hacc; [left|right]; apply Nat.eqb_eq; assumption).
  rewrite Hr; simpl; unfold create; rewrite Ht, Hv; reflexivity.
Qed.

Lemma find_msg_app mid st x m :
  find_msg mid st = Some m -> find_msg mid (st ++ x) = Some m.
Proof.
  unfold find_msg; induction st as [|y st IH]; simpl; [discriminate|].
  destruct (Nat.eqb (_id y) mid); [auto|exact IH].
Qed.

(** C9. Forwarding a stored message [m] that the requester sent or received,
    to an existing user, appends one new message with [m]'s content and
    type, a fresh id, the requester as sender and status [sent]; every
    document already stored, [m] included, is left as it was. *)
Theorem forward_copies_message users me mid rid now st m :
  find_msg mid st = Some m ->
  (sender m = me \/ receiver m = me) ->
  user_exists rid users = true ->
  stored_ok m ->
  exists f, forwardMessage users me mid rid now st = (st ++ [f], Ok f) /\
    content f = content m /\ messageType f = messageType m /\
    _id f <> _id m /\ sender f = me /\ status f = sent /\
    find_msg mid (st ++ [f]) = Some m.
Proof.
  intros Hf Hacc Hr Hok.
  eexists; split; [apply (forward_creates users me mid rid now st m); assumption|].
  simpl; repeat split; try reflexivity.
  - pose proof (fresh_id_gt st m (proj1 (find_some _ _ Hf))); lia.
  - apply find_msg_app; exact Hf.
Qed.

Lemma forward_copies_message_witness :
  exists f, forwardMessage [1%nat; 2%nat; 3%nat] 2 1 3 20
              [new_message 1 1 2 [104; 105] text None 0]
            = ([new_message 1 1 2 [104; 105] text None 0] ++ [f], Ok f) /\
    content f = [104; 105] /\ messageType f = text /\
    _id f <> 1%nat /\ sender f = 2%nat /\ status f = sent /\
    find_msg 1 ([new_message 1 1 2 [104; 105] text None 0] ++ [f])
    = Some (new_message 1 1 2 [104; 105] text None 0).
Proof.
  apply (forward_copies_message [1%nat; 2%nat; 3%nat] 2 1 3 20
           [new_message 1 1 2 [104; 105] text None 0]
           (new_message 1 1 2 [104; 105] text None 0));
    [reflexivity|right; reflexivity|reflexivity|split; reflexivity].
Defined.

(** C10. Forwarding does not look at [isDeleted]: a soft-deleted message
    that the requester sent or received is forwarded to an existing user
    like any other, and the copy is a non-deleted message with the same
    content, inside the conversation of the requester and that user. *)
Theorem forward_ignores_deletion users me mid rid now st m :
  find_msg mid st = Some m ->
  isDeleted m = true ->
  (sender m = me \/ receiver m = me) ->
  user_exists rid users = true ->
  stored_ok m ->
  exists f, forwardMessage users me mid rid now st = (st ++ [f], Ok f) /\
    isDeleted f = false /\ content f = content m /\
    conv_filter me rid f = true.
Proof.
  intros Hf _ Hacc Hr Hok.
  eexists; split; [apply (forward_creates users me mid rid now st m); assumption|].
  simpl; repeat split; try reflexivity.
  unfold conv_filter, pair_filter; simpl; rewrite !Nat.eqb_refl; reflexivity.
Qed.

Lemma forward_ignores_deletion_witness :
  exists f, forwardMessage [1%nat; 2%nat; 3%nat] 1 1 3 20 [deleted_hi]
            = ([deleted_hi] ++ [f], Ok f) /\
    isDeleted f = false /\ content f = content deleted_hi /\
    conv_filter 1 3 f = true.
Proof.
  apply (forward_ignores_deletion [1%nat; 2%nat; 3%nat] 1 1 3 20 [deleted_hi]
           deleted_hi);
    [reflexivity|reflexivity|left; reflexivity|reflexivity|split; reflexivity].
Defined.



(** * Further properties of the message code *)

(** ** Status updates *)

(** After [joinConversation] (its [markAsDelivered(peer, me)]), no message
    from the peer to the joining user is still [sent], and every message of
    any other sender/receiver pair is untouched. *)
Theorem joinConversation_delivers me peer now st :
  (forall m', In m' (joinConversation me peer now st) ->
     sender m' = peer -> receiver m' = me -> status m' <> sent) /\
  (forall m, In m st -> ~ (sender m = peer /\ receiver m = me) ->
     In m (joinConversation me peer now st)).
Proof.
  unfold joinConversation, markAsDelivered, updateMany; simpl; split.
  - intros m' Hin Hs Hr; apply in_map_iff in Hin as [m [<- _]].
    destruct (deliver_filter peer me m) eqn:E; [simpl; discriminate|].
    unfold deliver_filter in E; rewrite Hs, Hr, !Nat.eqb_refl in E; simpl in E.
    destruct (status m); simpl in *; congruence.
  - intros m Hin Hnp; apply in_map_iff; exists m; split; [|exact Hin].
    destruct (deliver_filter peer me m) eqn:E; [|reflexivity].
    unfold deliver_filter in E; apply andb_prop in E as [E _];
      apply andb_prop in E as [E1 E2].
    apply Nat.eqb_eq in E1, E2; tauto.
Qed.

Lemma markAsRead_all_read peer me now st :
  forall m', In m' (fst (markAsRead peer me now st)) ->
  sender m' = peer -> receiver m' = me -> status m' = read.
Proof.
  unfold markAsRead, updateMany; simpl.
  intros m' Hin Hs Hr; apply in_map_iff in Hin as [m [<- _]].
  destruct (read_filter peer me m) eqn:E; [reflexivity|].
  unfold read_filter in E; rewrite Hs, Hr, !Nat.eqb_refl in E; simpl in E.
  destruct (status m); simpl in *; congruence.
Qed.

(** After a successful [GET /conversation/:userId], every message that the
    peer sent to the requester is [read], soft-deleted ones included (the
    update has no [isDeleted] filter). *)
Theorem getConversation_ctl_marks_read plan users me peer page limit now st st' res :
  getConversation_ctl plan users me peer page limit now st = (st', Ok res) ->
  forall m', In m' st' -> sender m' = peer -> receiver m' = me -> status m' = read.
Proof.
  unfold getConversation_ctl.
  destruct (negb (user_exists peer users)); [discriminate|].
  destruct (getConversation plan me peer page limit st); [|discriminate].
  intros H; injection H as <- _; apply markAsRead_all_read.
Qed.

Lemma getConversation_ctl_marks_read_witness :
  getConversation_ctl (fun l => l) [1%nat; 2%nat] 2 1 1 50 9
    [deleted_hi; new_message 2 1 2 [104] text None 1]
  = ([set_read 9 deleted_hi; set_read 9 (new_message 2 1 2 [104] text None 1)],
     Ok [new_message 2 1 2 [104] text None 1]) /\
  forall m', In m' [set_read 9 deleted_hi; set_read 9 (new_message 2 1 2 [104] text None 1)] ->
    sender m' = 1%nat -> receiver m' = 2%nat -> status m' = read.
Proof.
  split; [vm_compute; reflexivity|].
  apply (getConversation_ctl_marks_read (fun l => l) [1%nat; 2%nat] 2 1 1 50 9
           [deleted_hi; new_message 2 1 2 [104] text None 1] _
           [new_message 2 1 2 [104] text None 1]).
  vm_compute; reflexivity.
Defined.

(** [PUT /read/:senderId] reports as [modifiedCount] the number of the
    sender's messages to the requester that were not yet read (soft-deleted
    ones included), and the requester's unread count drops by exactly the
    non-deleted ones among them. *)
Theorem markAsRead_ctl_count users me peer now st :
  user_exists peer users = true ->
  exists st', markAsRead_ctl users me peer now st
              = (st', Ok (List.length (List.filter (read_filter peer me) st))) /\
    getUnreadCount me st
    = (getUnreadCount me st'
       + List.length (List.filter (fun m => read_filter peer me m && negb (isDeleted m)) st))%nat.
Proof.
  intros Hu; unfold markAsRead_ctl; rewrite Hu; simpl.
  eexists; split; [reflexivity|].
  unfold getUnreadCount, markAsRead, updateMany; simpl.
  induction st as [|m st IH]; simpl; [reflexivity|].
  destruct (read_filter peer me m) eqn:E; simpl.
  - assert (Hu' : unread_filter me (set_read now m) = false)
      by (unfold unread_filter; simpl; rewrite andb_false_r, andb_false_l; reflexivity).
    rewrite Hu'.
    assert (Hm : unread_filter me m = negb (isDeleted m)).
    { unfold read_filter in E; apply andb_prop in E as [E Es];
        apply andb_prop in E as [_ Er].
      unfold unread_filter; rewrite Er.
      replace (negb (status_eqb (status m) read)) with true
        by (destruct (status m); simpl in *; congruence).
      reflexivity. }
    rewrite Hm; destruct (isDeleted m); simpl; lia.
  - destruct (unread_filter me m); simpl; lia.
Qed.

Lemma markAsRead_ctl_count_witness :
  exists st', markAsRead_ctl [1%nat; 2%nat] 2 1 9 [deleted_hi]
              = (st', Ok (List.length (List.filter (read_filter 1 2) [deleted_hi]))) /\
    getUnreadCount 2 [deleted_hi]
    = (getUnreadCount 2 st'
       + List.length (List.filter (fun m => read_filter 1 2 m && negb (isDeleted m))
                        [deleted_hi]))%nat.
Proof. apply markAsRead_ctl_count; reflexivity. Defined.

(** ** Sending *)

Lemma utf16_length_units (s : jsstring) :
  utf16_length s = Z.of_nat (List.length (to_utf16 s)).
Proof.
  induction s as [|c s IH]; [reflexivity|].
  unfold utf16_length, to_utf16 in *; cbn [fold_right flat_map].
  rewrite length_app, Nat2Z.inj_add, <- IH.
  destruct (65535 <? c); simpl; lia.
Qed.

Lemma validator_length_le (s : jsstring) : validator_length s <= utf16_length s.
Proof. unfold validator_length; rewrite utf16_length_units; lia. Qed.

Lemma sendMessage_ok_shape users me rid c mt rt now st st' m :
  sendMessage users me rid c mt rt now st = (st', Ok m) <->
  user_exists rid users = true /\
  isLength (trim c) 1 1000 && content_valid (trim c) = true /\
  st' = st ++ [m] /\
  m = new_message (fresh_id st) me rid (trim c)
        (match mt with Some t => t | None => detect_type (trim c) end) rt now.
Proof.
  unfold sendMessage, validateMessage_content, create; cbv zeta.
  split.
  - destruct (isLength (trim c) 1 1000) eqn:El; [|discriminate].
    destruct (user_exists rid users); simpl; [|discriminate].
    rewrite !trim_idem.
    destruct (content_valid (trim c)) eqn:Ev; [|discriminate].
    intros H; injection H as <- <-; auto.
  - intros [Hu [Hv [-> ->]]].
    apply andb_prop in Hv as [Hl Hv].
    rewrite Hl, Hu; simpl; rewrite !trim_idem, Hv; reflexivity.
Qed.

(** [POST /api/messages] succeeds exactly when the receiver exists, the
    trimmed content has a validator length ([isLength]: UTF-16 code units,
    less U+FE0E/U+FE0F units and surrogate pairs) of at least 1, and it is
    at most 1000 UTF-16 code units long (the schema's [maxlength], which
    implies the validator's upper bound); it then appends one new [sent],
    non-deleted document with a fresh id, the trimmed content and the given
    or detected type. *)
Theorem sendMessage_ok_iff users me rid c mt rt now st st' m :
  sendMessage users me rid c mt rt now st = (st', Ok m) <->
  user_exists rid users = true /\ 1 <= validator_length (trim c) /\
  utf16_length (trim c) <= 1000 /\ st' = st ++ [m] /\
  m = new_message (fresh_id st) me rid (trim c)
        (match mt with Some t => t | None => detect_type (trim c) end) rt now.
Proof.
  rewrite sendMessage_ok_shape.
  assert (Hc : isLength (trim c) 1 1000 && content_valid (trim c) = true <->
               1 <= validator_length (trim c) /\ utf16_length (trim c) <= 1000).
  { pose proof (validator_length_le (trim c)) as Hle.
    unfold isLength, content_valid.
    rewrite !andb_true_iff, negb_true_iff, Nat.eqb_neq, !Z.leb_le.
    split; [tauto|].
    intros [H1 H2]; split; [split; lia|split; [|exact H2]].
    intros H0; apply length_zero_iff_nil in H0.
    rewrite H0 in H1; vm_compute in H1; apply H1; reflexivity. }
  rewrite Hc; tauto.
Qed.

Lemma sendMessage_ok_iff_witness :
  sendMessage [1%nat; 2%nat] 1 2 hi_smiley None None 0 []
  = ([new_message 1 1 2 hi_smiley emoji None 0],
     Ok (new_message 1 1 2 hi_smiley emoji None 0)) /\
  (user_exists 2 [1%nat; 2%nat] = true /\ 1 <= validator_length (trim hi_smiley) /\
   utf16_length (trim hi_smiley) <= 1000 /\
   [new_message 1 1 2 hi_smiley emoji None 0] = [] ++ [new_message 1 1 2 hi_smiley emoji None 0] /\
   new_message 1 1 2 hi_smiley emoji None 0
   = new_message (fresh_id []) 1 2 (trim hi_smiley)
       (detect_type (trim hi_smiley)) None 0).
Proof.
  assert (H : sendMessage [1%nat; 2%nat] 1 2 hi_smiley None None 0 []
              = ([new_message 1 1 2 hi_smiley emoji None 0],
                 Ok (new_message 1 1 2 hi_smiley emoji None 0)))
    by (vm_compute; reflexivity).
  split; [exact H|].
  exact (proj1 (sendMessage_ok_iff [1%nat; 2%nat] 1 2 hi_smiley None None 0 [] _ _) H).
Defined.

(** A successful send raises the receiver's unread count by exactly one and
    leaves every other user's unread count unchanged. *)
Theorem sendMessage_unread_count users me rid c mt rt now st st' m :
  sendMessage users me rid c mt rt now st = (st', Ok m) ->
  getUnreadCount rid st' = S (getUnreadCount rid st) /\
  forall u, u <> rid -> getUnreadCount u st' = getUnreadCount u st.
Proof.
  intros H; apply sendMessage_ok_shape in H as [_ [_ [-> ->]]].
  unfold getUnreadCount; split.
  - rewrite filter_app, length_app; simpl.
    replace (unread_filter rid (new_message (fresh_id st) me rid (trim c)
               (match mt with Some t => t | None => detect_type (trim c) end) rt now))
      with true by (unfold unread_filter; simpl; rewrite Nat.eqb_refl; reflexivity).
    simpl; lia.
  - intros u Hu; rewrite filter_app, length_app; simpl.
    replace (unread_filter u (new_message (fresh_id st) me rid (trim c)
               (match mt with Some t => t | None => detect_type (trim c) end) rt now))
      with false by (unfold unread_filter; simpl;
                     replace (Nat.eqb rid u) with false
                       by (symmetry; apply Nat.eqb_neq; congruence);
                     reflexivity).
    simpl; lia.
Qed.

Lemma sendMessage_unread_count_witness :
  getUnreadCount 2 [new_message 1 1 2 hi_smiley emoji None 0]
  = S (getUnreadCount 2 []) /\
  (forall u, u <> 2%nat ->
     getUnreadCount u [new_message 1 1 2 hi_smiley emoji None 0] = getUnreadCount u []).
Proof.
  apply (sendMessage_unread_count [1%nat; 2%nat] 1 2 hi_smiley None None 0 [] _
           (new_message 1 1 2 hi_smiley emoji None 0)).
  vm_compute; reflexivity.
Defined.

Lemma socket_sendMessage_ok_shape users me rid c rt now st st' m :
  socket_sendMessage users me rid c None rt now st = (st', Ok m) ->
  st' = st ++ [m] /\ m = new_message (fresh_id st) me rid (trim c) text rt now.
Proof.
  unfold socket_sendMessage.
  destruct (Nat.eqb (List.length (trim c)) 0); [discriminate|].
  destruct (1000 <? utf16_length c); [discriminate|].
  destruct (negb (user_exists rid users)); [discriminate|].
  unfold create; rewrite trim_idem.
  destruct (content_valid (trim c)); [|discriminate].
  intros H; injection H as <- <-; auto.
Qed.

(** With [messageType] omitted, the socket [sendMessage] event and the REST
    [POST /api/messages] store the same document for the same request, except
    that the socket path always stores [text] while the REST path stores the
    type detected from the content. *)
Theorem socket_vs_rest_message_type users me rid c rt now st st1 m1 st2 m2 :
  socket_sendMessage users me rid c None rt now st = (st1, Ok m1) ->
  sendMessage users me rid c None rt now st = (st2, Ok m2) ->
  st1 = st ++ [m1] /\ st2 = st ++ [m2] /\
  messageType m1 = text /\ messageType m2 = detect_type (trim c) /\
  m2 = {| _id := _id m1; sender := sender m1; receiver := receiver m1;
          content := content m1; messageType := detect_type (trim c);
          status := status m1; deliveredAt := deliveredAt m1;
          readAt := readAt m1; editedAt := editedAt m1;
          isDeleted := isDeleted m1; deletedAt := deletedAt m1;
          replyTo := replyTo m1; createdAt := createdAt m1;
          updatedAt := updatedAt m1 |}.
Proof.
  intros H1 H2.
  apply socket_sendMessage_ok_shape in H1 as [-> ->].
  apply sendMessage_ok_shape in H2 as [_ [_ [-> ->]]].
  repeat split; reflexivity.
Qed.

Lemma socket_vs_rest_message_type_witness :
  messageType (new_message 1 1 2 hi_smiley text None 0) = text /\
  messageType (new_message 1 1 2 hi_smiley emoji None 0) = detect_type (trim hi_smiley).
Proof.
  destruct (socket_vs_rest_message_type [1%nat; 2%nat] 1 2 hi_smiley None 0 []
              [new_message 1 1 2 hi_smiley text None 0]
              (new_message 1 1 2 hi_smiley text None 0)
              [new_message 1 1 2 hi_smiley emoji None 0]
              (new_message 1 1 2 hi_smiley emoji None 0))
    as [_ [_ [H1 [H2 _]]]];
    [vm_compute; reflexivity|vm_compute; reflexivity|].
  split; [exact H1|exact H2].
Defined.

(** ** Editing and authorisation *)

Lemma In_replace_by_id_other mid f st x :
  In x st -> _id x <> mid -> In x (replace_by_id mid f st).
Proof.
  intros Hin Hne; unfold replace_by_id; apply in_map_iff; exists x; split; [|exact Hin].
  replace (Nat.eqb (_id x) mid) with false by (symmetry; apply Nat.eqb_neq; exact Hne).
  reflexivity.
Qed.

(** The sender can edit a message until it is more than 24 hours old (a
    message exactly 24 hours old is still editable), also after it was
    soft-deleted. The edit replaces the trimmed content, re-detects the type
    and stamps [editedAt]; status, deletion flag and date, and creation date
    are kept, and every other document is left in the store as it was. *)
Theorem editMessage_success me mid c now st m :
  find_msg mid st = Some m -> sender m = me -> now - day_ms <= createdAt m ->
  content_valid (trim c) = true ->
  exists st' m', editMessage me mid c now st = (st', Ok m') /\
    find_msg mid st' = Some m' /\
    content m' = trim c /\ messageType m' = detect_type c /\
    editedAt m' = Some now /\ status m' = status m /\
    isDeleted m' = isDeleted m /\ deletedAt m' = deletedAt m /\
    createdAt m' = createdAt m /\ sender m' = sender m /\ receiver m' = receiver m /\
    (forall x, In x st -> _id x <> mid -> In x st').
Proof.
  intros Hf Hs Ht Hv; unfold editMessage; rewrite Hf, Hs, Nat.eqb_refl; simpl.
  replace (createdAt m <? now - day_ms) with false by (symmetry; apply Z.ltb_ge; lia).
  rewrite trim_idem, Hv.
  do 2 eexists; split; [reflexivity|].
  split; [apply find_replace_by_id; [reflexivity|exact Hf]|].
  repeat split; try reflexivity.
  { exact Hs. }
  intros x Hin Hne; apply In_replace_by_id_other; assumption.
Qed.

Lemma editMessage_success_witness :
  exists st' m', editMessage 1 1 [121; 111] 86400000 [deleted_hi] = (st', Ok m') /\
    find_msg 1 st' = Some m' /\
    content m' = trim [121; 111] /\ messageType m' = detect_type [121; 111] /\
    editedAt m' = Some 86400000 /\ status m' = status deleted_hi /\
    isDeleted m' = isDeleted deleted_hi /\ deletedAt m' = deletedAt deleted_hi /\
    createdAt m' = createdAt deleted_hi /\ sender m' = sender deleted_hi /\
    receiver m' = receiver deleted_hi /\
    (forall x, In x [deleted_hi] -> _id x <> 1%nat -> In x st').
Proof.
  apply editMessage_success; vm_compute; [reflexivity|reflexivity| |reflexivity].
  discriminate.
Defined.

(** Only the sender may delete or edit a message: anybody else gets
    [Forbidden] and the store is unchanged. A user who is neither sender nor
    receiver cannot forward the message (again [Forbidden], store unchanged)
    and never gets it from [GET /api/messages/:messageId]. *)
Theorem message_access_control users me mid c rid now st m :
  find_msg mid st = Some m -> sender m <> me ->
  deleteMessage me mid now st = (st, Error Forbidden) /\
  editMessage me mid c now st = (st, Error Forbidden) /\
  (receiver m <> me ->
   forwardMessage users me mid rid now st = (st, Error Forbidden) /\
   forall r, getMessage users me mid st <> Ok r).
Proof.
  intros Hf Hs.
  assert (Es : Nat.eqb (sender m) me = false) by (apply Nat.eqb_neq; exact Hs).
  unfold deleteMessage, editMessage, forwardMessage, getMessage; rewrite Hf, Es; simpl.
  split; [reflexivity|split; [reflexivity|]].
  intros Hr; assert (Er : Nat.eqb (receiver m) me = false) by (apply Nat.eqb_neq; exact Hr).
  rewrite Er; simpl; split; [reflexivity|].
  intros r; destruct (user_exists (sender m) users), (user_exists (receiver m) users);
    simpl; discriminate.
Qed.

Lemma message_access_control_witness :
  deleteMessage 3 1 9 [deleted_hi] = ([deleted_hi], Error Forbidden) /\
  editMessage 3 1 [121] 9 [deleted_hi] = ([deleted_hi], Error Forbidden) /\
  (receiver deleted_hi <> 3%nat ->
   forwardMessage [1%nat; 2%nat; 3%nat] 3 1 1 9 [deleted_hi] = ([deleted_hi], Error Forbidden) /\
   forall r, getMessage [1%nat; 2%nat; 3%nat] 3 1 [deleted_hi] <> Ok r).
Proof.
  apply (message_access_control [1%nat; 2%nat; 3%nat] 3 1 [121] 1 9 [deleted_hi] deleted_hi);
    [vm_compute; reflexivity|vm_compute; discriminate].
Defined.







(** ** Order of the answered pages *)

(** A successful [GET /conversation/:userId] answers messages of the pair
    only, none of them soft-deleted, from the oldest to the newest, whatever
    order the server gives to messages with equal [createdAt]. *)
Theorem getConversation_ctl_oldest_first plan users me peer page limit now st st' res :
  plan_ok plan ->
  getConversation_ctl plan users me peer page limit now st = (st', Ok res) ->
  Sorted (fun a b => createdAt a <= createdAt b) res /\
  forall x, In x res -> In x st /\ pair_filter me peer x = true /\ isDeleted x = false.
Proof.
  intros Hplan; unfold getConversation_ctl.
  destruct (negb (user_exists peer users)); [discriminate|].
  destruct (getConversation plan me peer page limit st) as [msgs|] eqn:E; [|discriminate].
  intros H; injection H as _ <-; unfold getConversation in E; split.
  - apply StronglySorted_Sorted.
    apply (StronglySorted_rev (newer_or_same createdAt)).
    eapply mongo_page_sorted; [|exact E].
    apply Sorted_StronglySorted; [apply newer_or_same_trans|apply sort_desc_sorted].
  - intros x Hx; apply in_rev in Hx.
    eapply mongo_page_In in Hx; [|exact E].
    apply (proj1 (plan_sort_In createdAt plan _ _ Hplan)), filter_In in Hx as [Hin Hc].
    unfold conv_filter in Hc; apply andb_prop in Hc as [Hp Hd].
    apply negb_true_iff in Hd; auto.
Qed.

Lemma getConversation_ctl_oldest_first_witness :
  Sorted (fun a b => createdAt a <= createdAt b)
    [new_message 2 1 2 [104] text None 1; new_message 3 2 1 [104] text None 4] /\
  forall x, In x [new_message 2 1 2 [104] text None 1; new_message 3 2 1 [104] text None 4] ->
    In x [new_message 3 2 1 [104] text None 4; deleted_hi; new_message 2 1 2 [104] text None 1]
    /\ pair_filter 2 1 x = true /\ isDeleted x = false.
Proof.
  apply (getConversation_ctl_oldest_first (@rev Message) [1%nat; 2%nat] 2 1 1 50 9
    [new_message 3 2 1 [104] text None 4; deleted_hi; new_message 2 1 2 [104] text None 1]
    [new_message 3 2 1 [104] text None 4; set_read 9 deleted_hi;
     set_read 9 (new_message 2 1 2 [104] text None 1)]);
    [apply plan_ok_rev|vm_compute; reflexivity].
Defined.

(** ** Statistics *)

Lemma filter_length_mono {A} (p q : A -> bool) l :
  (forall x, p x = true -> q x = true) ->
  (List.length (List.filter p l) <= List.length (List.filter q l))%nat.
Proof.
  intros Hpq; induction l as [|x l IH]; simpl; [lia|].
  destruct (p x) eqn:Ep; [rewrite (Hpq x Ep); simpl; lia|].
  destruct (q x); simpl; lia.
Qed.

(** The [unreadCount] of [GET /stats] is the count of [GET /unread/count];
    it never exceeds [totalReceived], and [messagesToday] never exceeds
    [totalSent]. *)
Theorem messageStats_consistent userId today st :
  stats_unreadCount (getMessageStats userId today st) = getUnreadCount userId st /\
  (stats_unreadCount (getMessageStats userId today st)
   <= totalReceived (getMessageStats userId today st))%nat /\
  (messagesToday (getMessageStats userId today st)
   <= totalSent (getMessageStats userId today st))%nat.
Proof.
  unfold getMessageStats, getUnreadCount; simpl; split; [reflexivity|split];
    apply filter_length_mono; intros x Hx;
    repeat (apply andb_prop in Hx as [Hx ?]); rewrite ?Hx; simpl;
    rewrite ?andb_true_r; auto.
Qed.


(** ** The conversation list *)

Lemma list_sum_perm (l l' : list nat) : Permutation l l' -> list_sum l = list_sum l'.
Proof. induction 1; simpl; lia. Qed.

Lemma NoDup_firstn_l {A} n (l : list A) : NoDup l -> NoDup (firstn n l).
Proof.
  revert l; induction n as [|n IH]; intros l H; [constructor|].
  destruct l as [|x l]; [constructor|]; simpl.
  inversion H as [|? ? Hx Hl]; subst; constructor; [|auto].
  intros Hin; apply Hx; eapply In_firstn_l; exact Hin.
Qed.

Lemma NoDup_map_filter {A B} (f : A -> B) (p : A -> bool) l :
  NoDup (map f l) -> NoDup (map f (List.filter p l)).
Proof.
  induction l as [|x l IH]; simpl; intros H; [constructor|].
  inversion H as [|? ? Hx Hl]; subst.
  destruct (p x); simpl; [constructor|]; auto.
  intros Hin; apply Hx; apply in_map_iff in Hin as [y [Hy Hin]].
  apply filter_In in Hin as [Hin _]; apply in_map_iff; exists y; auto.
Qed.

Lemma group_add_participants userId m gs :
  map participant (group_add userId m gs)
  = map participant gs
    ++ (if existsb (fun g => Nat.eqb (participant g) (other_party userId m)) gs
        then [] else [other_party userId m]).
Proof.
  induction gs as [|g gs IH]; simpl; [reflexivity|].
  destruct (Nat.eqb (participant g) (other_party userId m)); simpl;
    [rewrite app_nil_r; reflexivity|rewrite IH; reflexivity].
Qed.

Lemma group_add_sum userId m gs :
  list_sum (map unreadCount (group_add userId m gs))
  = (list_sum (map unreadCount gs) + unread_inc userId m)%nat.
Proof.
  induction gs as [|g gs IH]; simpl; [lia|].
  destruct (Nat.eqb (participant g) (other_party userId m)); simpl; lia.
Qed.

Lemma group_add_cases userId m gs g :
  In g (group_add userId m gs) ->
  (exists g0, In g0 gs /\ participant g = participant g0 /\ lastMessage g = lastMessage g0)
  \/ (participant g = other_party userId m /\ lastMessage g = m /\
      ~ In (other_party userId m) (map participant gs)).
Proof.
  induction gs as [|h gs IH]; simpl; intros Hin.
  - destruct Hin as [<-|[]]; right; simpl; auto.
  - destruct (Nat.eqb (participant h) (other_party userId m)) eqn:E.
    + left; destruct Hin as [<-|Hin].
      * exists h; simpl; auto.
      * exists g; auto.
    + destruct Hin as [<-|Hin]; [left; exists h; auto|].
      destruct (IH Hin) as [[g0 [? ?]]|[? [? Hn]]]; [left; exists g0; auto|].
      right; split; [assumption|split; [assumption|]].
      intros [Hh|Hh]; [apply Nat.eqb_neq in E; congruence|tauto].
Qed.

Lemma group_by_peer_snoc userId l m :
  group_by_peer userId (l ++ [m]) = group_add userId m (group_by_peer userId l).
Proof. unfold group_by_peer; rewrite fold_left_app; reflexivity. Qed.

Lemma group_by_peer_participants userId l :
  NoDup (map participant (group_by_peer userId l)) /\
  forall p, In p (map participant (group_by_peer userId l)) <-> In p (map (other_party userId) l).
Proof.
  induction l as [|m l IH] using rev_ind; [split; [constructor|simpl; tauto]|].
  destruct IH as [Hnd Hin]; rewrite group_by_peer_snoc, group_add_participants, map_app.
  destruct (existsb (fun g => Nat.eqb (participant g) (other_party userId m))
              (group_by_peer userId l)) eqn:E.
  - rewrite app_nil_r; split; [exact Hnd|].
    intros p; rewrite Hin, in_app_iff; simpl; split; [tauto|].
    intros [H|[<-|[]]]; [exact H|].
    apply existsb_exists in E as [g [Hg Hp]]; apply Nat.eqb_eq in Hp.
    apply Hin, in_map_iff; exists g; auto.
  - split.
    + apply NoDup_app; [exact Hnd|repeat constructor; simpl; tauto|].
      intros p Hp [<-|[]].
      apply in_map_iff in Hp as [g [Hpg Hg]].
      assert (existsb (fun g => Nat.eqb (participant g) (other_party userId m))
                (group_by_peer userId l) = true)
        by (apply existsb_exists; exists g; split; [exact Hg|apply Nat.eqb_eq; exact Hpg]).
      congruence.
    + intros p; rewrite !in_app_iff, Hin; reflexivity.
Qed.

Lemma group_by_peer_sum userId l :
  list_sum (map unreadCount (group_by_peer userId l)) = list_sum (map (unread_inc userId) l).
Proof.
  induction l as [|m l IH] using rev_ind; [reflexivity|].
  rewrite group_by_peer_snoc, group_add_sum, IH, map_app, list_sum_app; simpl; lia.
Qed.

Lemma group_by_peer_rows userId l :
  forall g, In g (group_by_peer userId l) ->
  In (lastMessage g) l /\ participant g = other_party userId (lastMessage g).
Proof.
  induction l as [|m l IH] using rev_ind; [simpl; tauto|].
  intros g Hg; rewrite group_by_peer_snoc in Hg.
  destruct (group_add_cases _ _ _ _ Hg) as [[g0 [Hg0 [Hp Hl]]]|[Hp [Hl _]]].
  - destruct (IH g0 Hg0) as [H1 H2]; rewrite Hl, Hp; split; [apply in_or_app; auto|exact H2].
  - rewrite Hl; split; [apply in_or_app; right; left; reflexivity|exact Hp].
Qed.

Lemma group_by_peer_newest userId l :
  StronglySorted (newer_or_same createdAt) l ->
  forall g m, In g (group_by_peer userId l) -> In m l ->
  other_party userId m = participant g -> createdAt m <= createdAt (lastMessage g).
Proof.
  induction l as [|x l IH] using rev_ind; [simpl; tauto|].
  intros Hs g m Hg Hm Hpm.
  assert (Hl : StronglySorted (newer_or_same createdAt) l).
  { clear -Hs; induction l as [|a l IHl]; [constructor|].
    simpl in Hs; apply StronglySorted_inv in Hs as [Hs Hf].
    constructor; [auto|]; rewrite Forall_forall in *; intros y Hy; apply Hf, in_or_app; auto. }
  assert (Hx : forall y, In y l -> createdAt x <= createdAt y).
  { clear -Hs; induction l as [|a l IHl]; simpl; [tauto|].
    apply StronglySorted_inv in Hs as [Hs Hf]; intros y [<-|Hy]; [|auto].
    rewrite Forall_forall in Hf; apply (Hf x), in_or_app; right; left; reflexivity. }
  rewrite group_by_peer_snoc in Hg; apply in_app_iff in Hm.
  destruct (group_add_cases _ _ _ _ Hg) as [[g0 [Hg0 [Hp Hlm]]]|[Hp [Hlm Hn]]].
  - rewrite Hlm; rewrite Hp in Hpm.
    destruct Hm as [Hm|[<-|[]]]; [apply (IH Hl g0 m Hg0 Hm Hpm)|].
    apply Hx, (group_by_peer_rows userId l g0 Hg0).
  - rewrite Hlm; destruct Hm as [Hm|[<-|[]]]; [|lia].
    exfalso; apply Hn, (proj2 (group_by_peer_participants userId l)), in_map_iff.
    exists m; split; [congruence|exact Hm].
Qed.

(** Every row of [GET /api/messages/conversations] is a different peer;
    rows come newest first; a row's last message is a stored, non-deleted
    message between the user and that peer, and no such message is newer;
    whatever order the server gives to ties in either [$sort]. *)
Theorem latestConversations_rows planM planS users userId limit st res :
  plan_ok planM -> plan_ok planS ->
  getLatestConversations planM planS users userId limit st = Ok res ->
  NoDup (map participant res) /\
  Sorted (newer_or_same (fun g => createdAt (lastMessage g))) res /\
  forall s, In s res ->
    In (lastMessage s) st /\ latest_match userId (lastMessage s) = true /\
    participant s = other_party userId (lastMessage s) /\
    forall m, In m st -> latest_match userId m = true ->
      other_party userId m = participant s -> createdAt m <= createdAt (lastMessage s).
Proof.
  intros HpM HpS; unfold getLatestConversations.
  destruct (Nat.eqb limit 0); [discriminate|]; intros H; injection H as <-.
  set (matched := List.filter (latest_match userId) st).
  set (groups := group_by_peer userId (sort_desc createdAt (planM matched))).
  set (joined := List.filter (fun g => user_exists (participant g) users) groups).
  assert (Hj : forall s, In s (firstn limit (sort_desc (fun g => createdAt (lastMessage g))
                                                       (planS joined)))
                         -> In s groups).
  { intros s Hs; apply In_firstn_l,
      (proj1 (plan_sort_In (fun g => createdAt (lastMessage g)) planS _ _ HpS)),
      filter_In in Hs; tauto. }
  split; [|split].
  - rewrite <- firstn_map; apply NoDup_firstn_l.
    apply (Permutation_NoDup (Permutation_map participant
             (Permutation_sym (plan_sort_perm _ planS joined HpS)))).
    apply NoDup_map_filter, group_by_peer_participants.
  - apply StronglySorted_Sorted, StronglySorted_firstn, Sorted_StronglySorted;
      [apply newer_or_same_trans|apply sort_desc_sorted].
  - intros s Hs; apply Hj in Hs.
    destruct (group_by_peer_rows _ _ s Hs) as [Hin Hp].
    apply (proj1 (plan_sort_In createdAt planM _ _ HpM)), filter_In in Hin as [Hin Hm].
    split; [exact Hin|split; [exact Hm|split; [exact Hp|]]].
    intros m Hmst Hmm Hpm.
    apply (group_by_peer_newest userId (sort_desc createdAt (planM matched))); auto.
    + apply Sorted_StronglySorted; [apply newer_or_same_trans|apply sort_desc_sorted].
    + apply (proj2 (plan_sort_In createdAt planM _ _ HpM)), filter_In; auto.
Qed.

Lemma filter_all_true {A} (p : A -> bool) l :
  (forall x, In x l -> p x = true) -> List.filter p l = l.
Proof.
  induction l as [|x l IH]; simpl; intros H; [reflexivity|].
  rewrite (H x (or_introl eq_refl)), IH; auto.
Qed.

Lemma unread_inc_sum userId st :
  list_sum (map (unread_inc userId) (List.filter (latest_match userId) st))
  = getUnreadCount userId st.
Proof.
  unfold getUnreadCount; induction st as [|m st IH]; simpl; [reflexivity|].
  assert (Hc : (if latest_match userId m then unread_inc userId m else 0%nat)
               = (if unread_filter userId m then 1 else 0)%nat)
    by (unfold latest_match, unread_inc, unread_filter;
        destruct (Nat.eqb (receiver m) userId), (Nat.eqb (sender m) userId),
          (isDeleted m), (status_eqb (status m) read); reflexivity).
  destruct (latest_match userId m), (unread_filter userId m); simpl in *; lia.
Qed.

(** When every peer is still in the user directory and the limit is
    positive and covers all conversations, the conversation list has one row
    per conversation counted by [GET /stats], and its unread counts add up to
    [GET /unread/count], whatever order the server gives to ties. *)
Theorem latestConversations_totals planM planS users userId limit today st :
  plan_ok planM -> plan_ok planS ->
  (0 < limit)%nat ->
  (totalConversations (getMessageStats userId today st) <= limit)%nat ->
  (forall m, In m st -> latest_match userId m = true ->
             user_exists (other_party userId m) users = true) ->
  exists res, getLatestConversations planM planS users userId limit st = Ok res /\
    List.length res = totalConversations (getMessageStats userId today st) /\
    list_sum (map unreadCount res) = getUnreadCount userId st.
Proof.
  intros HpM HpS Hpos Hlim Hus;
    unfold getLatestConversations, getMessageStats in *; simpl in *.
  replace (Nat.eqb limit 0) with false by (symmetry; apply Nat.eqb_neq; lia).
  set (matched := List.filter (latest_match userId) st) in *.
  set (groups := group_by_peer userId (sort_desc createdAt (planM matched))).
  assert (Hj : List.filter (fun g => user_exists (participant g) users) groups = groups).
  { apply filter_all_true; intros g Hg.
    destruct (group_by_peer_rows _ _ g Hg) as [Hin ->].
    apply (proj1 (plan_sort_In createdAt planM _ _ HpM)), filter_In in Hin as [Hin Hm];
      auto. }
  assert (Hlen : List.length groups
                 = List.length (nodup Nat.eq_dec (map (other_party userId) matched))).
  { destruct (group_by_peer_participants userId (sort_desc createdAt (planM matched)))
      as [Hnd Hin].
    rewrite <- (length_map participant groups).
    assert (Heq : forall p, In p (map participant groups)
                            <-> In p (nodup Nat.eq_dec (map (other_party userId) matched))).
    { intros p; rewrite nodup_In; unfold groups; rewrite Hin, !in_map_iff.
      split; intros [m [Hp Hm]]; exists m; split; auto;
        [apply (proj1 (plan_sort_In createdAt planM matched m HpM))
        |apply (proj2 (plan_sort_In createdAt planM matched m HpM))]; exact Hm. }
    apply Nat.le_antisymm; apply NoDup_incl_length;
      try apply NoDup_nodup; try exact Hnd; intros p; apply Heq. }
  rewrite Hj; eexists; split; [reflexivity|].
  rewrite firstn_all2
    by (rewrite (Permutation_length (plan_sort_perm _ planS _ HpS)); lia).
  split.
  - rewrite (Permutation_length (plan_sort_perm _ planS _ HpS)); exact Hlen.
  - rewrite (list_sum_perm _ _ (Permutation_map unreadCount (plan_sort_perm _ planS _ HpS))).
    unfold groups; rewrite group_by_peer_sum.
    rewrite (list_sum_perm _ _ (Permutation_map (unread_inc userId)
                                  (plan_sort_perm _ planM _ HpM))).
    apply unread_inc_sum.
Qed.

Lemma latestConversations_rows_witness :
  exists res, getLatestConversations (@rev Message) (@rev Summary) [1%nat; 2%nat; 3%nat]
                1 5 three_way = Ok res /\
  NoDup (map participant res) /\
  Sorted (newer_or_same (fun g => createdAt (lastMessage g))) res /\
  forall s, In s res ->
    In (lastMessage s) three_way /\ latest_match 1 (lastMessage s) = true /\
    participant s = other_party 1 (lastMessage s) /\
    forall m, In m three_way -> latest_match 1 m = true ->
      other_party 1 m = participant s -> createdAt m <= createdAt (lastMessage s).
Proof.
  exists (match getLatestConversations (@rev Message) (@rev Summary)
                 [1%nat; 2%nat; 3%nat] 1 5 three_way with
          | Ok r => r | Error _ => [] end).
  assert (H : getLatestConversations (@rev Message) (@rev Summary)
                [1%nat; 2%nat; 3%nat] 1 5 three_way
              = Ok (match getLatestConversations (@rev Message) (@rev Summary)
                            [1%nat; 2%nat; 3%nat] 1 5 three_way with
                    | Ok r => r | Error _ => [] end)) by (vm_compute; reflexivity).
  split; [exact H|].
  exact (latestConversations_rows (@rev Message) (@rev Summary) [1%nat; 2%nat; 3%nat]
           1 5 three_way _ plan_ok_rev plan_ok_rev H).
Defined.

Lemma latestConversations_totals_witness :
  exists res, getLatestConversations (@rev Message) (@rev Summary) [1%nat; 2%nat; 3%nat]
                1 5 three_way = Ok res /\
    List.length res = totalConversations (getMessageStats 1 0 three_way) /\
    list_sum (map unreadCount res) = getUnreadCount 1 three_way.
Proof.
  apply latestConversations_totals;
    [apply plan_ok_rev|apply plan_ok_rev|lia|vm_compute; lia|].
  intros m Hm _; unfold three_way in Hm.
  repeat (destruct Hm as [<-|Hm]; [vm_compute; reflexivity|]); destruct Hm.
Defined.

(** ** Helpers *)

Lemma is_rx_meta_bound u : is_rx_meta u = true -> 0 <= u <= 125.
Proof.
  unfold is_rx_meta; simpl; intros H.
  repeat (apply orb_true_iff in H as [H|H]; [apply Z.eqb_eq in H; lia|]); discriminate.
Qed.

Lemma to_utf16_app a b : to_utf16 (a ++ b) = to_utf16 a ++ to_utf16 b.
Proof. unfold to_utf16; apply flat_map_app. Qed.

Lemma to_utf16_cons_small c s :
  c <= 65535 -> to_utf16 (c :: s) = c :: to_utf16 s.
Proof.
  intros Hc; unfold to_utf16; cbn [flat_map].
  replace (65535 <? c) with false by (symmetry; apply Z.ltb_ge; lia); reflexivity.
Qed.

Lemma to_utf16_escapeRegex q :
  to_utf16 (escapeRegex q)
  = flat_map (fun u => if is_rx_meta u then [92; u] else [u]) (to_utf16 q).
Proof.
  induction q as [|c q IH]; [reflexivity|].
  change (escapeRegex (c :: q))
    with ((if is_rx_meta c then [92; c] else [c]) ++ escapeRegex q).
  change (to_utf16 (c :: q))
    with ((if 65535 <? c
           then [55296 + Z.shiftr (c - 65536) 10; 56320 + Z.land (c - 65536) 1023]
           else [c]) ++ to_utf16 q).
  rewrite to_utf16_app, flat_map_app, IH; f_equal.
  destruct (is_rx_meta c) eqn:Em.
  - apply is_rx_meta_bound in Em as Hb.
    replace (65535 <? c) with false by (symmetry; apply Z.ltb_ge; lia).
    rewrite !to_utf16_cons_small by lia; cbn [flat_map app]; rewrite Em; reflexivity.
  - destruct (65535 <? c) eqn:Ec.
    + apply Z.ltb_lt in Ec.
      assert (Hs : forall u, 125 < u -> is_rx_meta u = false)
        by (intros u Hu; destruct (is_rx_meta u) eqn:E;
            [apply is_rx_meta_bound in E; lia|reflexivity]).
      assert (H1 : 0 <= Z.shiftr (c - 65536) 10) by (apply Z.shiftr_nonneg; lia).
      assert (H2 : 0 <= Z.land (c - 65536) 1023) by (apply Z.land_nonneg; lia).
      unfold to_utf16 at 1; cbn [flat_map].
      replace (65535 <? c) with true by (symmetry; apply Z.ltb_lt; lia).
      cbn [flat_map app]; rewrite !Hs by lia; reflexivity.
    + rewrite !to_utf16_cons_small by (apply Z.ltb_ge; exact Ec).
      cbn [flat_map app]; rewrite Em; reflexivity.
Qed.

Lemma parse_atoms_esc_escaped us :
  parse_atoms_esc (flat_map (fun u => if is_rx_meta u then [92; u] else [u]) us)
  = Some (map ALit us).
Proof.
  induction us as [|u us IH]; [reflexivity|].
  cbn [flat_map]; destruct (is_rx_meta u) eqn:Em; cbn [app parse_atoms_esc].
  - rewrite Z.eqb_refl, Em, IH; reflexivity.
  - assert (H92 : (u =? 92) = false)
      by (apply Z.eqb_neq; intros ->; discriminate).
    assert (H46 : (u =? 46) = false)
      by (apply Z.eqb_neq; intros ->; discriminate).
    rewrite H92, IH, H46, Em; reflexivity.
Qed.

(** [new RegExp(escapeRegex(q), 'i')] (the user search) never throws and
    matches exactly the strings that contain [q] literally, each code unit
    compared through the [i] flag's [Canonicalize]: the escaped
    metacharacters lose their regex meaning. *)
Theorem escapeRegex_literal canonicalize q :
  exists test, rx_compile_esc canonicalize (escapeRegex q) = Some test /\
               forall s, test s = ci_includes canonicalize q s.
Proof.
  unfold rx_compile_esc; rewrite to_utf16_escapeRegex, parse_atoms_esc_escaped.
  eexists; split; [reflexivity|].
  intros s; unfold ci_includes; apply match_anywhere_literal.
Qed.

(** ** Conversation keys *)

Lemma units_lt_asym a b : units_lt a b = true -> units_lt b a = false.
Proof.
  revert b; induction a as [|x a IH]; intros [|y b]; simpl; try congruence.
  intros H; apply orb_true_iff in H as [H|H].
  - apply Z.ltb_lt in H.
    replace (y <? x) with false by (symmetry; apply Z.ltb_ge; lia).
    replace (y =? x) with false by (symmetry; apply Z.eqb_neq; lia); reflexivity.
  - apply andb_prop in H as [Hx H]; apply Z.eqb_eq in Hx; subst y.
    rewrite Z.ltb_irrefl, Z.eqb_refl, (IH b H); reflexivity.
Qed.

Lemma units_lt_total a b : units_lt a b = false -> units_lt b a = false -> a = b.
Proof.
  revert b; induction a as [|x a IH]; intros [|y b]; simpl; try congruence.
  intros H1 H2; apply orb_false_iff in H1 as [H1 H1'], H2 as [H2 H2'].
  apply Z.ltb_ge in H1, H2; assert (x = y) by lia; subst y.
  rewrite Z.eqb_refl in H1', H2'; simpl in *; f_equal; auto.
Qed.

Lemma split_dash_app u v :
  ~ In 45 u -> split_dash (u ++ 45 :: v) = (u, v).
Proof.
  induction u as [|x u IH]; simpl; intros Hn; [reflexivity|].
  replace (x =? 45) with false by (symmetry; apply Z.eqb_neq; intros ->; tauto).
  rewrite IH by tauto; reflexivity.
Qed.

(** [generateConversationId] gives the same key, as a JS string, for both
    orders of its arguments; for ids without ['-'] the key determines the
    unordered pair of ids. *)
Theorem generateConversationId_pair a b c d :
  to_utf16 (generateConversationId a b) = to_utf16 (generateConversationId b a) /\
  (~ In 45 (to_utf16 a) -> ~ In 45 (to_utf16 b) ->
   ~ In 45 (to_utf16 c) -> ~ In 45 (to_utf16 d) ->
   to_utf16 (generateConversationId a b) = to_utf16 (generateConversationId c d) ->
   (to_utf16 a = to_utf16 c /\ to_utf16 b = to_utf16 d) \/
   (to_utf16 a = to_utf16 d /\ to_utf16 b = to_utf16 c)).
Proof.
  split.
  - unfold generateConversationId.
    destruct (units_lt (to_utf16 b) (to_utf16 a)) eqn:E1.
    + rewrite (units_lt_asym _ _ E1); reflexivity.
    + destruct (units_lt (to_utf16 a) (to_utf16 b)) eqn:E2; [reflexivity|].
      rewrite !to_utf16_app, (units_lt_total _ _ E1 E2); reflexivity.
  - intros Ha Hb Hc Hd; unfold generateConversationId.
    destruct (units_lt (to_utf16 b) (to_utf16 a)),
      (units_lt (to_utf16 d) (to_utf16 c)); rewrite !to_utf16_app;
      change (to_utf16 [45]) with [45]; simpl; intros H;
      apply (f_equal split_dash) in H; rewrite !split_dash_app in H by assumption;
      injection H as H1 H2; auto.
Qed.

(** ** E-mail addresses and dates *)

Lemma m_plus_spec cls k s :
  m_plus cls k s = true <->
  exists a r, s = a ++ r /\ a <> [] /\ forallb cls a = true /\ k r = true.
Proof.
  induction s as [|u s IH]; simpl.
  - split; [discriminate|].
    intros [a [r [Hs [Ha _]]]]; destruct a; [congruence|discriminate].
  - rewrite andb_true_iff, orb_true_iff, IH; split.
    + intros [Hu [Hk|[a [r [-> [Ha [Hf Hk]]]]]]].
      * exists [u], s; simpl; rewrite Hu; auto using nil_cons.
      * exists (u :: a), r; simpl; rewrite Hu, Hf; auto using nil_cons.
    + intros [[|x a] [r [Hs [Ha [Hf Hk]]]]]; [congruence|].
      simpl in Hs, Hf; injection Hs as -> ->; apply andb_prop in Hf as [Hx Hf].
      split; [exact Hx|].
      destruct a as [|y a]; [left; exact Hk|].
      right; exists (y :: a), r; repeat split; auto using nil_cons.
Qed.

Lemma m_char_spec c k s :
  m_char c k s = true <-> exists r, s = c :: r /\ k r = true.
Proof.
  destruct s as [|u s]; simpl.
  - split; [discriminate|intros [r [H _]]; discriminate].
  - rewrite andb_true_iff, Z.eqb_eq; split.
    + intros [-> Hk]; exists s; auto.
    + intros [r [H Hk]]; injection H as -> ->; auto.
Qed.

(** [isValidEmail] accepts exactly the strings made of a non-empty local
    part, one ['@'], a non-empty domain name, a ['.'] and a non-empty last
    part, none of the parts holding whitespace or ['@'] (dots are allowed in
    every part, so ["a@b.."] passes). *)
Theorem isValidEmail_iff email :
  isValidEmail email = true <->
  exists a b c, to_utf16 email = a ++ 64 :: b ++ 46 :: c /\
    a <> [] /\ b <> [] /\ c <> [] /\
    forallb email_char a = true /\ forallb email_char b = true /\
    forallb email_char c = true.
Proof.
  unfold isValidEmail; rewrite m_plus_spec; split.
  - intros [a [r1 [Hs [Ha [Hfa Hk]]]]].
    apply m_char_spec in Hk as [r2 [-> Hk]].
    apply m_plus_spec in Hk as [b [r3 [-> [Hb [Hfb Hk]]]]].
    apply m_char_spec in Hk as [r4 [-> Hk]].
    apply m_plus_spec in Hk as [c [r5 [-> [Hc [Hfc Hk]]]]].
    destruct r5; [|discriminate].
    exists a, b, c; rewrite Hs, app_nil_r; auto 8.
  - intros [a [b [c [Hs [Ha [Hb [Hc [Hfa [Hfb Hfc]]]]]]]]].
    exists a, (64 :: b ++ 46 :: c); split; [exact Hs|split; [exact Ha|split; [exact Hfa|]]].
    apply m_char_spec; exists (b ++ 46 :: c); split; [reflexivity|].
    apply m_plus_spec; exists b, (46 :: c); repeat split; auto.
    apply m_char_spec; exists c; split; [reflexivity|].
    apply m_plus_spec; exists c, []; rewrite app_nil_r; auto.
Qed.

(** [formatDate] reports minutes from 1 to 59, hours from 1 to 23 and days
    from 1 to 6; a date less than a minute old, or in the future, is
    ['now'], and the plain date appears only from seven days on. *)
Theorem formatDate_ranges now date :
  (date > now - 60000 -> formatDate now date = AgoNow) /\
  (forall n, formatDate now date = AgoMinutes n -> 1 <= n <= 59) /\
  (forall n, formatDate now date = AgoHours n -> 1 <= n <= 23) /\
  (forall n, formatDate now date = AgoDays n -> 1 <= n <= 6) /\
  (forall d, formatDate now date = LocaleDate d -> d = date /\ now - date >= 604800000).
Proof.
  unfold formatDate.
  destruct (now - date <? 60000) eqn:E1.
  { split; [reflexivity|]; split; [|split; [|split]]; intros ? H; discriminate. }
  apply Z.ltb_ge in E1; split; [intros; lia|].
  destruct (now - date <? 3600000) eqn:E2.
  { apply Z.ltb_lt in E2; split; [|split; [|split]]; intros n' H; try discriminate;
      injection H as <-; split;
      [apply Z.div_le_lower_bound
      |apply Z.lt_succ_r, Z.div_lt_upper_bound]; lia. }
  apply Z.ltb_ge in E2.
  destruct (now - date <? 86400000) eqn:E3.
  { apply Z.ltb_lt in E3; split; [|split; [|split]]; intros n' H; try discriminate;
      injection H as <-; split;
      [apply Z.div_le_lower_bound
      |apply Z.lt_succ_r, Z.div_lt_upper_bound]; lia. }
  apply Z.ltb_ge in E3.
  destruct (now - date <? 604800000) eqn:E4.
  { apply Z.ltb_lt in E4; split; [|split; [|split]]; intros n' H; try discriminate;
      injection H as <-; split;
      [apply Z.div_le_lower_bound
      |apply Z.lt_succ_r, Z.div_lt_upper_bound]; lia. }
  apply Z.ltb_ge in E4.
  split; [|split; [|split]]; intros n' H; try discriminate; injection H as <-; lia.
Qed.

(** ** Pagination *)

Lemma ceil_div_bounds total limit :
  0 < limit ->
  (ceil_div total limit - 1) * limit < total <= ceil_div total limit * limit.
Proof.
  intros Hl; unfold ceil_div.
  pose proof (Z.mul_div_le (- total) limit Hl) as H1.
  pose proof (Z.mul_succ_div_gt (- total) limit Hl) as H2.
  set (d := (- total) / limit) in *; nia.
Qed.

Lemma ceil_div_lt p total limit :
  0 < limit -> (p < ceil_div total limit <-> p * limit < total).
Proof.
  intros Hl; pose proof (ceil_div_bounds total limit Hl) as [H1 H2].
  set (q := ceil_div total limit) in *; split; intros H.
  - assert (p * limit <= (q - 1) * limit) by (apply Z.mul_le_mono_pos_r; lia); lia.
  - destruct (Z.lt_ge_cases p q) as [Hq|Hq]; [exact Hq|].
    assert (q * limit <= p * limit) by (apply Z.mul_le_mono_pos_r; lia); lia.
Qed.

Lemma digit_not_space u : is_digit u = true -> is_js_space u = false.
Proof.
  unfold is_digit, is_js_space; intros H; apply andb_prop in H as [H1 H2].
  apply Z.leb_le in H1, H2; apply not_true_iff_false; intros H.
  repeat rewrite orb_true_iff in H; repeat rewrite andb_true_iff in H;
    rewrite ?Z.eqb_eq, ?Z.leb_le in H; lia.
Qed.

Lemma trim_start_digits s : forallb is_digit s = true -> trim_start s = s.
Proof.
  destruct s as [|u s]; simpl; [reflexivity|].
  intros H; apply andb_prop in H as [H _]; rewrite (digit_not_space u H); reflexivity.
Qed.

Lemma trim_digits s : forallb is_digit s = true -> trim s = s.
Proof.
  intros H; unfold trim, trim_end; rewrite (trim_start_digits s H).
  rewrite trim_start_digits; [apply rev_involutive|].
  apply forallb_forall; intros x Hx; apply in_rev in Hx.
  rewrite forallb_forall in H; auto.
Qed.

Lemma take_digits_all s : forallb is_digit s = true -> take_digits s = s.
Proof.
  induction s as [|u s IH]; simpl; [reflexivity|].
  intros H; apply andb_prop in H as [Hu H]; rewrite Hu, IH; auto.
Qed.

(** When [page] arrives as a query-string of decimal digits (e.g. ["2"]),
    [getPaginationMeta] reads it as a number for [currentPage] and
    [hasNextPage], but builds [nextPage] by string concatenation: the next
    page after ["2"] is ["21"]. *)
Theorem getPaginationMeta_query_page s limit total :
  s <> [] -> forallb is_digit s = true -> 0 < limit ->
  digits_value s * limit < total ->
  currentPage (getPaginationMeta (JStr s) limit total) = Some (digits_value s) /\
  hasNextPage (getPaginationMeta (JStr s) limit total) = true /\
  nextPage (getPaginationMeta (JStr s) limit total) = Some (JStr (s ++ [49])).
Proof.
  intros Hne Hd Hl Hlt.
  assert (Hn : string_to_number s = Some (digits_value s))
    by (unfold string_to_number; rewrite trim_digits, Hd by exact Hd; reflexivity).
  assert (Hh : js_lt_num (JStr s) (ceil_div total limit) = true)
    by (unfold js_lt_num, js_to_number; rewrite Hn;
        apply Z.ltb_lt, ceil_div_lt; assumption).
  unfold getPaginationMeta; cbn zeta; rewrite Hh; simpl.
  split; [|split; reflexivity].
  rewrite trim_start_digits by exact Hd.
  destruct s as [|u r]; [congruence|].
  pose proof Hd as Hu; simpl in Hu; apply andb_prop in Hu as [Hu _].
  unfold is_digit in Hu; apply andb_prop in Hu as [Hu1 Hu2]; apply Z.leb_le in Hu1, Hu2.
  replace (u =? 45) with false by (symmetry; apply Z.eqb_neq; lia).
  replace (u =? 43) with false by (symmetry; apply Z.eqb_neq; lia).
  rewrite take_digits_all by exact Hd.
  rewrite Z.mul_1_l; reflexivity.
Qed.

Lemma getPaginationMeta_query_page_witness :
  currentPage (getPaginationMeta (JStr [50]) 2 10) = Some (digits_value [50]) /\
  hasNextPage (getPaginationMeta (JStr [50]) 2 10) = true /\
  nextPage (getPaginationMeta (JStr [50]) 2 10) = Some (JStr ([50] ++ [49])).
Proof.
  apply getPaginationMeta_query_page;
    [discriminate|reflexivity|lia|vm_compute; reflexivity].
Defined.

Lemma firstn_add {A} a b (xs : list A) :
  firstn (a + b) xs = firstn a xs ++ firstn b (skipn a xs).
Proof.
  revert xs; induction a as [|a IH]; intros xs; [reflexivity|].
  destruct xs as [|x xs]; simpl; [destruct b; reflexivity|rewrite IH; reflexivity].
Qed.

Lemma sort_desc_plan_nodup {A} (key : A -> Z) plan (xs : list A) :
  plan_ok plan -> NoDup (map key xs) -> sort_desc key (plan xs) = sort_desc key xs.
Proof.
  intros Hp Hnd; apply (sorted_perm_nodup key);
    [apply sort_desc_strongly_sorted|apply sort_desc_strongly_sorted| |].
  - rewrite (plan_sort_perm key plan xs Hp); symmetry; apply sort_desc_perm.
  - apply (Permutation_NoDup (Permutation_map key
             (Permutation_sym (plan_sort_perm key plan xs Hp)))), Hnd.
Qed.

(** With a positive [limit] and no two results sharing the sort key,
    requesting pages [1..n] one after another, each a query of its own,
    returns exactly the first [n * limit] results newest first: the pages
    never skip nor repeat a result. *)
Theorem pages_upto_prefix {A} (key : A -> Z) plans n l (xs : list A) :
  (forall i, plan_ok (plans i)) -> 0 < l -> NoDup (map key xs) ->
  pages_upto key plans n l xs = firstn (n * Z.to_nat l) (sort_desc key xs).
Proof.
  intros Hp Hl Hnd; induction n as [|n IH]; [reflexivity|].
  cbn [pages_upto]; rewrite IH.
  unfold page_of; rewrite (sort_desc_plan_nodup key _ xs (Hp (S n)) Hnd).
  unfold mongo_page.
  replace ((Z.of_nat (S n) - 1) * l <? 0) with false
    by (symmetry; apply Z.ltb_ge; nia).
  replace (l =? 0) with false by (symmetry; apply Z.eqb_neq; lia).
  replace (Z.to_nat ((Z.of_nat (S n) - 1) * l)) with (n * Z.to_nat l)%nat
    by (rewrite Nat2Z.inj_succ, Z.sub_1_r, Z.pred_succ, Z2Nat.inj_mul, Nat2Z.id by lia;
        reflexivity).
  rewrite Z.abs_eq by lia.
  rewrite <- firstn_add; f_equal; lia.
Qed.

Lemma pages_upto_prefix_witness :
  pages_upto (fun x : Z => x) (fun i => if Nat.even i then @rev Z else fun l => l)
    2 2 [3; 1; 4; 2; 5]
  = firstn (2 * Z.to_nat 2) (sort_desc (fun x : Z => x) [3; 1; 4; 2; 5]).
Proof.
  apply pages_upto_prefix; [|lia|vm_compute; repeat constructor; simpl; intuition lia].
  intros i; destruct (Nat.even i); [apply plan_ok_rev|apply plan_ok_id].
Defined.
